(** * qsoverlay: the circuit builder, embedded and verified

    A shallow embedding of [qsoverlay/circuit_builder.py] (class [Builder])
    and of the composite gates of [qsoverlay/gate_functions.py].

    Modelling conventions.
    - A Python number ([int] or [float]) is the rational [Qc] that is its
      value; the two types are identified by their numeric value, as
      Python's [==] does, and the numbers are finite and within the range
      of the floats.  Comparisons and [* -1] are exact in Python and are
      those of the rationals.  The sums and the halves that the builder
      computes are rounded where a [float] is involved: what [a + b] and
      [a / 2] give is a parameter of the model ([Arith]), and [exact] is
      the arithmetic of numbers for which nothing is rounded, as with the
      small integers of the examples.
    - Dictionaries are stdpp finite maps.  Qubit names and keyword names are
      strings; looking up a key that is not a string raises [KeyError], as it
      does in a dictionary whose keys are all strings.
    - A method of the builder is a function from the builder's mutable state
      to a [result]: a normal return or a raised exception, both with the
      state reached (mutations made before an exception persist).
    - A composite gate calls back into the builder.  The depth of the
      nested calls is bounded by a fuel argument; [OutOfFuel] is the outcome
      when the bound is reached, and an outcome reached with one bound is
      the outcome with every larger bound ([add_gate_more_fuel]).
    - The simulation engine (quantumsim) is external: it is a parameter
      saying which operations it rejects, and the circuit is the list of the
      operations that it was handed. *)

From Stdlib Require Import QArith Qcanon.
From stdpp Require Import gmap strings list fin_maps numbers pretty.

(** ** Python values *)

Inductive pytype := TBool | TInt | TFloat | TStr.

#[warnings="-register-all"]
Inductive value :=
  | VNone
  | VBool (b : bool)
  | VNum (q : Qc)
  | VStr (s : string)
  | VType (t : pytype)
  | VTuple (l : list value).

Abbreviation kwargs := (gmap string value).

Inductive exn :=
  | KeyError
  | IndexError
  | TypeError
  | ValueError
  | AssertionError
  | GateError (msg : string).

(** [bool(v)], the test of [if v:]. *)
Definition truthy (v : value) : bool :=
  match v with
  | VNone => false
  | VBool b => b
  | VNum q => negb (bool_decide (q = 0%Qc))
  | VStr s => negb (bool_decide (s = ""))
  | VType _ => true
  | VTuple [] => false
  | VTuple (_ :: _) => true
  end.

(** [type(v) is bool] *)
Definition is_bool (v : value) : bool :=
  match v with VBool _ => true | _ => false end.

(** [v is False] *)
Definition is_False (v : value) : bool :=
  match v with VBool false => true | _ => false end.

(** [v == t] for a type object [t]: only the type object itself is equal
    to it. *)
Definition eq_type (v : value) (t : pytype) : bool :=
  match v, t with
  | VType TBool, TBool | VType TInt, TInt
  | VType TFloat, TFloat | VType TStr, TStr => true
  | _, _ => false
  end.

(** A string is the sequence of its one-character strings. *)
Fixpoint chars (s : string) : list value :=
  match s with
  | EmptyString => []
  | String a s' => VStr (String a EmptyString) :: chars s'
  end.

(** The items of a subscriptable value; [None] where Python raises
    [TypeError: object is not subscriptable]. *)
Definition as_seq (v : value) : option (list value) :=
  match v with
  | VTuple l => Some l
  | VStr s => Some (chars s)
  | _ => None
  end.

(** A value used as a key of a dictionary keyed by strings. *)
Definition as_key (v : value) : option string :=
  match v with VStr s => Some s | _ => None end.

(** [v *= -1] *)
Definition negate (v : value) : exn + value :=
  match v with
  | VNum q => inr (VNum (- q))
  | VBool b => inr (VNum (- (if b then 1 else 0)))
  | VStr _ => inr (VStr "")
  | VTuple _ => inr (VTuple [])
  | VNone | VType _ => inl TypeError
  end.

Fixpoint digits (s : string) (acc : Z) : option Z :=
  match s with
  | EmptyString => Some acc
  | String a s' =>
      let n := Z.of_nat (Ascii.nat_of_ascii a) in
      if bool_decide (48 ≤ n ≤ 57)%Z then digits s' (10 * acc + (n - 48)) else None
  end.

(** [int(s)] for a plain decimal numeral with an optional sign. *)
Definition int_of_string (s : string) : option Z :=
  match s with
  | EmptyString => None
  | String a s' =>
      if Ascii.eqb a (Ascii.ascii_of_nat 45) then
        match s' with EmptyString => None | _ => Z.opp <$> digits s' 0 end
      else if Ascii.eqb a (Ascii.ascii_of_nat 43) then
        match s' with EmptyString => None | _ => digits s' 0 end
      else digits s 0
  end.

(** [int(v)].  Of the strings only plain decimal numerals, with an optional
    sign, are read; the others raise [ValueError]. *)
Definition py_int (v : value) : exn + Z :=
  match v with
  | VBool b => inr (if b then 1 else 0)%Z
  | VNum q => inr (Z.quot (Qnum (this q)) (Z.pos (Qden (this q))))
  | VStr s => match int_of_string s with Some z => inr z | None => inl ValueError end
  | VNone | VType _ | VTuple _ => inl TypeError
  end.

(** [max(a, b)]: the second argument is taken only when it is greater. *)
Definition pymax (a b : Qc) : Qc := if decide (a < b)%Qc then b else a.

(** [max(l)]; [None] where Python raises [ValueError] on an empty
    sequence. *)
Definition py_max (l : list Qc) : option Qc :=
  match l with
  | [] => None
  | x :: l' => Some (foldl pymax x l')
  end.

(** [l[-n]] for an integer [n] of either sign ([l[-0]] is [l[0]]). *)
Definition neg_index {A} (l : list A) (n : Z) : option A :=
  if bool_decide (n ≤ 0)%Z then l !! Z.to_nat (- n)
  else if bool_decide (n ≤ Z.of_nat (length l))%Z
       then l !! (length l - Z.to_nat n)%nat else None.

(** [{k: v for k, v in pairs}]: a later pair overwrites an earlier one. *)
Definition dict_of (pairs : list (string * value)) : kwargs :=
  foldl (λ m p, <[p.1 := p.2]> m) ∅ pairs.

(** ** Python's arithmetic

    The numbers that Python computes for [a + b] and for [a / 2]. *)

Record Arith := MkArith {
  py_add : Qc → Qc → Qc;
  py_half : Qc → Qc
}.

(** The arithmetic in which no sum and no half is rounded. *)
Definition exact : Arith := MkArith (λ a b, a + b)%Qc (λ a, a / 2)%Qc.

(** ** The simulation circuit and the builder's state *)

Inductive gate_ref :=
  | GName (name : string)
  | GClass (cls : string).

(** An operation handed to the engine: what to instantiate, and the
    keyword arguments it is instantiated with ([time], [bit], ...). *)
Record operation := Operation {
  op_gate : gate_ref;
  op_kwargs : kwargs
}.

(** The attributes of a [Builder] that change while a circuit is built:
    [self.times], [self.circuit_list], [self.save_flag], and the gates of
    [self.circuit]. *)
Record Builder := MkBuilder {
  times : gmap string Qc;
  circuit_list : list (list value);
  save_flag : bool;
  circuit : list operation
}.

Definition set_times (f : gmap string Qc → gmap string Qc) (b : Builder)
    : Builder :=
  MkBuilder (f (times b)) (circuit_list b) (save_flag b) (circuit b).
Definition set_circuit_list (f : list (list value) → list (list value))
    (b : Builder) : Builder :=
  MkBuilder (times b) (f (circuit_list b)) (save_flag b) (circuit b).
Definition set_save_flag (flag : bool) (b : Builder) : Builder :=
  MkBuilder (times b) (circuit_list b) flag (circuit b).
Definition set_circuit (f : list operation → list operation) (b : Builder)
    : Builder :=
  MkBuilder (times b) (circuit_list b) (save_flag b) (f (circuit b)).

(** ** Results: normal return, exception, or fuel exhausted *)

Inductive result (A : Type) :=
  | Ok (a : A) (b : Builder)
  | Raise (e : exn) (b : Builder)
  | OutOfFuel.
Arguments Ok {A} a b.
Arguments Raise {A} e b.
Arguments OutOfFuel {A}.

Definition M (A : Type) : Type := Builder → result A.

#[export] Instance M_ret : MRet M := λ A a b, Ok a b.
#[export] Instance M_bind : MBind M := λ A B f m b,
  match m b with
  | Ok a b' => f a b'
  | Raise e b' => Raise e b'
  | OutOfFuel => OutOfFuel
  end.

Definition raise {A} (e : exn) : M A := λ b, Raise e b.
Definition get : M Builder := λ b, Ok b b.
Definition modify (f : Builder → Builder) : M unit := λ b, Ok tt (f b).

(** A lookup that raises [e] when it finds nothing. *)
Definition lift {A} (e : exn) (o : option A) : M A :=
  match o with Some a => mret a | None => raise e end.

Definition lift_sum {A} (r : exn + A) : M A :=
  match r with inr a => mret a | inl e => raise e end.

(** [for x in l: f(x)] *)
Fixpoint for_each {A} (f : A → M unit) (l : list A) : M unit :=
  match l with
  | [] => mret tt
  | x :: l' => f x ;; for_each f l'
  end.

(** [[f(x) for x in l]] *)
Fixpoint collect {A B} (f : A → M B) (l : list A) : M (list B) :=
  match l with
  | [] => mret []
  | x :: l' => y ← f x; ys ← collect f l'; mret (y :: ys)
  end.

(** The state, whatever the outcome; [None] when the fuel ran out. *)
Definition final {A} (r : result A) : option Builder :=
  match r with
  | Ok _ b | Raise _ b => Some b
  | OutOfFuel => None
  end.

(** ** Composite gates

    A handler that is neither a name nor a gate class is a Python function
    called with the builder.  It is a tree of the calls it makes on the
    builder: each call hands its outcome (the value returned or the
    exception raised) to the rest of the function, which may re-raise it or
    go on; the function may read the builder's state and add operations to
    [builder.circuit] directly. *)

Inductive prog :=
  | PReturn
  | PRaise (e : exn)
  | PLt (gate_desc : value) (k : exn + option operation → prog)
  | PAddGate (gate_name : string) (qubit_list : list value)
      (return_flag : value) (kw : kwargs) (k : exn + option operation → prog)
  | PCircuitAdd (op : operation) (k : prog)
  | PRead (k : Builder → prog).

(** [builder < gate_desc] followed by [p], an exception of the call
    propagating. *)
Definition lt_then (gate_desc : list value) (p : prog) : prog :=
  PLt (VTuple gate_desc) (λ r, match r with inl e => PRaise e | inr _ => p end).

Inductive handler :=
  | HName (name : string)
  | HClass (cls : string)
  | HFunc (f : kwargs → prog).

(** ** Configuration: [gate_dic], [gate_set], [qubit_dic] *)

Record GateTemplate := MkTemplate {
  num_qubits : nat;
  user_kws : list string;
  function : handler
}.

Record Setup := MkSetup {
  qubit_dic : gmap string kwargs;
  gate_dic : gmap string GateTemplate;
  gate_set : gmap (list string) (kwargs * gmap string Qc)
}.

(** The engine: the exception with which it rejects an operation, if it
    does, and what it makes of the gates when the circuit is finalized. *)
Record Engine := MkEngine {
  eng_rejects : gate_ref → kwargs → list operation → option exn;
  eng_finalize : bool → Qc → list operation → exn + list operation
}.

(** ** The methods of [Builder] *)

(** The two entry points through which a composite gate calls back into
    the builder. *)
Record methods := Methods {
  m_add_gate : string → list value → value → kwargs → M (option operation);
  m_lt : value → M (option operation)
}.

(** Runs the body of a composite gate against the builder [self]. *)
Fixpoint run_prog (self : methods) (p : prog) : M unit :=
  match p with
  | PReturn => mret tt
  | PRaise e => raise e
  | PLt gate_desc k => λ b,
      match m_lt self gate_desc b with
      | Ok r b' => run_prog self (k (inr r)) b'
      | Raise e b' => run_prog self (k (inl e)) b'
      | OutOfFuel => OutOfFuel
      end
  | PAddGate gate_name qubit_list return_flag kw k => λ b,
      match m_add_gate self gate_name qubit_list return_flag kw b with
      | Ok r b' => run_prog self (k (inr r)) b'
      | Raise e b' => run_prog self (k (inl e)) b'
      | OutOfFuel => OutOfFuel
      end
  | PCircuitAdd op k =>
      modify (set_circuit (λ gates, gates ++ [op])) ;; run_prog self k
  | PRead k => λ b, run_prog self (k b) b
  end.

Section builder.
Context (ar : Arith) (eng : Engine) (setup : Setup).

(** [qubit_args['classical'] is True] *)
Definition is_classical (qubit_args : kwargs) : bool :=
  match qubit_args !! "classical" with Some (VBool true) => true | _ => false end.

(** [new_circuit]: an empty circuit and log, and a clock at 0 for every
    qubit that is not a classical bit. *)
Definition new_circuit : M unit :=
  modify (λ b, MkBuilder
    ((λ _, 0%Qc) <$> filter (λ p, is_classical p.2 = false) (qubit_dic setup))
    [] (save_flag b) []).

(** [Builder(qubit_dic=..., gate_dic=..., gate_set=...)] *)
Definition init : Builder :=
  MkBuilder
    ((λ _, 0%Qc) <$> filter (λ p, is_classical p.2 = false) (qubit_dic setup))
    [] true [].

(** [self.times[qubit]] *)
Definition read_clock (qubit : value) : M Qc :=
  b ← get; lift KeyError (as_key qubit ≫= λ q, times b !! q).

(** [self.times[qubit] = t].  The builder assigns only to clocks that it
    has read, so that the qubit is a string. *)
Definition write_clock (qubit : value) (t : Qc) : M unit :=
  match qubit with
  | VStr q => modify (set_times <[q := t]>)
  | _ => raise TypeError
  end.

(** [max(self.times[qubit] for qubit in qubit_list)] *)
Definition max_clock (qubit_list : list value) : M Qc :=
  ts ← collect read_clock qubit_list; lift ValueError (py_max ts).

(** Lines 311-323 of [add_gate]: the firing time.  The second component
    is the local [time], the latest clock of the qubits, when the firing
    time was computed ([time_flag] is False), and [None] when [kwargs]
    came with a [time] ([time_flag] is True). *)
Definition schedule (builder_args : gmap string Qc) (gate_time : Qc)
    (qubit_list : list value) (kw : kwargs) : M (kwargs * option Qc) :=
  if bool_decide (is_Some (kw !! "time")) then mret (kw, None)
  else
    time ← max_clock qubit_list;
    match builder_args !! "exec_time" with
    | Some exec_time =>
        mret (<["time" := VNum (py_add ar time exec_time)]> kw, Some time)
    | None =>
        mret (<["time" := VNum (py_add ar time (py_half ar gate_time))]> kw,
              Some time)
    end.

(** Lines 327-331: the qubits as [bit], or [bit0], [bit1], ... *)
Definition add_bits (qubit_list : list value) (kw : kwargs) : kwargs :=
  match qubit_list with
  | [qubit] => <["bit" := qubit]> kw
  | _ => foldl (λ m jq, <["bit" +:+ pretty (jq.1 : nat) := jq.2]> m) kw
           (zip (seq 0 (length qubit_list)) qubit_list)
  end.

(** The tuple appended to [circuit_list]. *)
Definition log_entry (gate_name : string) (qubit_list user_data : list value)
    (return_flag : value) : list value :=
  if is_False return_flag then VStr gate_name :: qubit_list ++ user_data
  else VStr gate_name :: qubit_list ++ user_data ++ [return_flag].

(** Lines 340-348: the log, written only while [save_flag] is on. *)
Definition record_gate (gate_name : string) (qubit_list : list value)
    (return_flag : value) (kw : kwargs) : M unit :=
  b ← get;
  if save_flag b then
    tpl ← lift KeyError (gate_dic setup !! gate_name);
    user_data ← lift KeyError (mapM (λ k, kw !! k) (user_kws tpl));
    modify (set_circuit_list
              (λ l, l ++ [log_entry gate_name qubit_list user_data return_flag]))
  else mret tt.

(** [self.circuit.add_gate(...)] *)
Definition engine_add (g : gate_ref) (kw : kwargs) : M unit :=
  b ← get;
  match eng_rejects eng g kw (circuit b) with
  | Some e => raise e
  | None => modify (set_circuit (λ gates, gates ++ [Operation g kw]))
  end.

(** Lines 365-373: the three kinds of handler. *)
Definition dispatch (self : methods) (gate : handler) (kw : kwargs) : M unit :=
  match gate with
  | HName name => engine_add (GName name) kw
  | HClass cls => engine_add (GClass cls) kw
  | HFunc f =>
      if bool_decide (is_Some (kw !! "builder")) then raise TypeError
      else run_prog self (f kw)
  end.

(** Lines 362-378: [save_flag] is switched off around [m] and set back
    to what it was, on a return and on an exception. *)
Definition guarded (m : M unit) : M unit := λ b,
  let prev_flag := save_flag b in
  match m (set_save_flag false b) with
  | Ok r b' => Ok r (set_save_flag prev_flag b')
  | Raise e b' => Raise e (set_save_flag prev_flag b')
  | OutOfFuel => OutOfFuel
  end.

(** Lines 383-385: [self.times[qubit] = max(self.times[qubit], t)] for
    every qubit of the call. *)
Definition advance_clocks (qubit_list : list value) (t : Qc) : M unit :=
  for_each (λ qubit, c ← read_clock qubit; write_clock qubit (pymax c t)) qubit_list.

(** Lines 389-390: [self.circuit.gates[-int(return_flag)]] *)
Definition returned_gate (return_flag : value) : M (option operation) :=
  if is_False return_flag then mret None
  else
    n ← lift_sum (py_int return_flag);
    b ← get;
    g ← lift IndexError (neg_index (circuit b) n);
    mret (Some g).

(** [self.gate_set[(gate_name, *qubit_list)]] *)
Definition binding (gate_name : string) (qubit_list : list value)
    : option (kwargs * gmap string Qc) :=
  mapM as_key qubit_list ≫= λ keys, gate_set setup !! (gate_name :: keys).

(** Lines 298-348 of [add_gate], up to the log: the keyword arguments
    handed to the gate, the local [time] (see [schedule]) and the
    [gate_time] of the binding. *)
Definition prepare (gate_name : string) (qubit_list : list value)
    (return_flag : value) (kw : kwargs) : M (kwargs * option Qc * Qc) :=
  args ← lift KeyError (binding gate_name qubit_list);
  let kw := kw ∪ args.1 in
  gate_time ← lift KeyError (args.2 !! "gate_time");
  sched ← schedule args.2 gate_time qubit_list kw;
  let kw := add_bits qubit_list sched.1 in
  record_gate gate_name qubit_list return_flag kw ;;
  mret (kw, sched.2, gate_time).

(** Lines 351-390 of [add_gate]: the dispatch, the clocks and the gate
    returned. *)
Definition complete (self : methods) (gate_name : string)
    (qubit_list : list value) (return_flag : value)
    (p : kwargs * option Qc * Qc) : M (option operation) :=
  tpl ← lift KeyError (gate_dic setup !! gate_name);
  guarded (dispatch self (function tpl) p.1.1) ;;
  match p.1.2 with
  | Some time => advance_clocks qubit_list (py_add ar time p.2)
  | None => mret tt
  end ;;
  returned_gate return_flag.

Definition add_gate_body (self : methods) (gate_name : string)
    (qubit_list : list value) (return_flag : value) (kw : kwargs)
    : M (option operation) :=
  p ← prepare gate_name qubit_list return_flag kw;
  complete self gate_name qubit_list return_flag p.

(** Lines 263-272 of [add_gates_simultaneous]: the clocks read for one
    description, [self.times[gate_desc[j]]] for [j] from 1 to
    [num_qubits]. *)
Definition description_clocks (gate_desc : value) : M (list Qc) :=
  desc ← lift TypeError (as_seq gate_desc);
  head ← lift IndexError (desc !! 0%nat);
  tpl ← lift KeyError (as_key head ≫= λ name, gate_dic setup !! name);
  collect (λ j, qubit ← lift IndexError (desc !! j); read_clock qubit)
          (seq 1 (num_qubits tpl)).

(** [gate_desc[1:num_qubits + 1]] for a description of the group. *)
Definition description_qubits (gate_desc : value) : exn + list value :=
  match as_seq gate_desc with
  | None => inl TypeError
  | Some desc =>
      match desc !! 0%nat with
      | None => inl IndexError
      | Some head =>
          match as_key head ≫= λ name, gate_dic setup !! name with
          | None => inl KeyError
          | Some tpl => inr (take (num_qubits tpl) (drop 1 desc))
          end
      end
  end.

(** The first half of [add_gates_simultaneous]: the common starting time
    and the clocks of all the qubits of the group set to it. *)
Definition simultaneous_start (gate_descriptions : list value) : M unit :=
  ts ← collect description_clocks gate_descriptions;
  starting_time ← lift ValueError (py_max (concat ts));
  for_each (λ gate_desc,
      qubit_list ← lift_sum (description_qubits gate_desc);
      for_each (λ qubit, write_clock qubit starting_time) qubit_list)
    gate_descriptions.

Definition add_gates_simultaneous_body (self : methods)
    (gate_descriptions : list value) : M unit :=
  simultaneous_start gate_descriptions ;;
  for_each (λ gate_desc, m_lt self gate_desc ;; mret tt) gate_descriptions.

(** Lines 231-246 of [__lt__]: the explicit time ([None] when there is
    none) and the return flag, from the length of the description. *)
Definition trailing_fields (tpl : GateTemplate) (gate_desc : list value)
    : M (value * value) :=
  let n := (length (user_kws tpl) + num_qubits tpl)%nat in
  if bool_decide (length gate_desc = n + 2)%nat then
    final ← lift IndexError (neg_index gate_desc 1);
    if is_bool final then mret (VNone, final) else mret (final, VBool false)
  else if bool_decide (length gate_desc = n + 3)%nat then
    final ← lift IndexError (neg_index gate_desc 1);
    before ← lift IndexError (neg_index gate_desc 2);
    if negb (eq_type final TBool) then raise AssertionError
    else if negb (eq_type before TFloat || eq_type before TInt)
         then raise AssertionError
    else mret (before, final)
  else if negb (bool_decide (length gate_desc = n + 1)%nat) then raise AssertionError
  else mret (VNone, VBool false).

(** The names of the parameters of [add_gate]: a keyword argument of
    one of these names collides with the parameter. *)
Definition reserved (kw : kwargs) : bool :=
  bool_decide (is_Some (kw !! "self") ∨ is_Some (kw !! "gate_name")
               ∨ is_Some (kw !! "qubit_list") ∨ is_Some (kw !! "return_flag")).

(** Lines 248-253: the keyword arguments of the call. *)
Definition description_kwargs (tpl : GateTemplate) (gate_desc : list value)
    (time : value) : kwargs :=
  let kw := dict_of (zip (user_kws tpl) (drop (num_qubits tpl + 1) gate_desc)) in
  if truthy time then <["time" := time]> kw else kw.

Definition lt_body (self : methods) (gate_desc : value) : M (option operation) :=
  desc ← lift TypeError (as_seq gate_desc);
  head ← lift IndexError (desc !! 0%nat);
  match head with
  | VStr gate_name =>
      tpl ← lift KeyError (gate_dic setup !! gate_name);
      fields ← trailing_fields tpl desc;
      let qubit_list := take (num_qubits tpl) (drop 1 desc) in
      let kw := description_kwargs tpl desc fields.1 in
      if reserved kw then raise TypeError
      else m_add_gate self gate_name qubit_list fields.2 kw
  | _ => add_gates_simultaneous_body self desc ;; mret None
  end.

(** The builder with a bound on the depth of nested calls. *)
Fixpoint builder (fuel : nat) : methods :=
  match fuel with
  | O => Methods (λ _ _ _ _ _, OutOfFuel) (λ _ _, OutOfFuel)
  | S fuel' => Methods (add_gate_body (builder fuel')) (lt_body (builder fuel'))
  end.

Definition add_gate (fuel : nat) := m_add_gate (builder fuel).
Definition lt (fuel : nat) := m_lt (builder fuel).
Definition add_gates_simultaneous (fuel : nat) :=
  add_gates_simultaneous_body (builder fuel).

(** [add_circuit_list]: the descriptions in order; the gates handed back
    (objects, which count as true) are collected. *)
Fixpoint add_circuit_list (fuel : nat) (circuit_list : list (list value))
    : M (list operation) :=
  match circuit_list with
  | [] => mret []
  | gate_desc :: rest =>
      temp_ag ← lt fuel (VTuple gate_desc);
      adjustable_gates ← add_circuit_list fuel rest;
      mret (match temp_ag with
            | Some g => g :: adjustable_gates
            | None => adjustable_gates
            end)
  end.

(** [finalize(topo_order, t_add)] for a number [t_add]: the circuit ends
    at the latest clock plus [t_add]; the waiting gates and the order in
    which the gates are left are the engine's. *)
Definition finalize (topo_order : bool) (t_add : Qc) : M unit :=
  b ← get;
  circuit_time ← lift ValueError (py_max (map_to_list (times b)).*2);
  gates ← lift_sum (eng_finalize eng topo_order (py_add ar circuit_time t_add)
                      (circuit b));
  modify (set_circuit (λ _, gates)).

(** Lines 109-119 of [make_reverse_circuit]: one description of the
    reversed list, its angle negated. *)
Definition reverse_desc (gate_desc : list value) : exn + list value :=
  match gate_desc !! 0%nat with
  | None => inl IndexError
  | Some gate_name =>
      match as_key gate_name ≫= λ name, gate_dic setup !! name with
      | None => inl KeyError
      | Some tpl =>
          match list_find (λ kw, kw = "angle") (user_kws tpl) with
          | None => inr gate_desc
          | Some (angle_index, _) =>
              let i := (num_qubits tpl + 1 + angle_index)%nat in
              match gate_desc !! i with
              | None => inl IndexError
              | Some v =>
                  match negate v with
                  | inl e => inl e
                  | inr v' => inr (<[i := v']> gate_desc)
                  end
              end
          end
      end
  end.

Fixpoint reverse_descs (l : list (list value)) : exn + list (list value) :=
  match l with
  | [] => inr []
  | gate_desc :: rest =>
      match reverse_desc gate_desc with
      | inl e => inl e
      | inr d =>
          match reverse_descs rest with
          | inl e => inl e
          | inr ds => inr (d :: ds)
          end
      end
  end.

(** [make_reverse_circuit]: the new builder is returned, [self] is left
    as it was. *)
Definition make_reverse_circuit (fuel : nat) (do_finalize : bool) : M Builder := λ b,
  match reverse_descs (reverse (circuit_list b)) with
  | inl e => Raise e b
  | inr reversed_circuit_list =>
      match (add_circuit_list fuel reversed_circuit_list ;;
             if do_finalize then finalize false 0%Qc else mret tt) init with
      | Ok _ reversed_circuit_builder => Ok reversed_circuit_builder b
      | Raise e _ => Raise e b
      | OutOfFuel => OutOfFuel
      end
  end.

End builder.

(** ** The composite gates of [gate_functions.py]

    [pi] is numpy's constant, taken as a parameter.  A Python function
    called with keyword arguments that are not exactly its parameters
    raises [TypeError]. *)

Module gate_functions.
Section gate_functions.
Context (pi : Qc).

Definition bit_time (kw : kwargs) (body : value → value → prog) : prog :=
  match kw !! "bit", kw !! "time" with
  | Some bit, Some time =>
      if bool_decide (dom kw = ({["bit"; "time"]} : gset string))
      then body bit time else PRaise TypeError
  | _, _ => PRaise TypeError
  end.

Definition bit0_bit1_time (kw : kwargs) (body : value → value → value → prog)
    : prog :=
  match kw !! "bit0", kw !! "bit1", kw !! "time" with
  | Some bit0, Some bit1, Some time =>
      if bool_decide (dom kw = ({["bit0"; "bit1"; "time"]} : gset string))
      then body bit0 bit1 time else PRaise TypeError
  | _, _, _ => PRaise TypeError
  end.

Definition X_gate (kw : kwargs) : prog :=
  bit_time kw (λ bit time,
    lt_then [VStr "RX"; bit; VNum (- pi); time] PReturn).

Definition Y_gate (kw : kwargs) : prog :=
  bit_time kw (λ bit time,
    lt_then [VStr "RY"; bit; VNum (- pi); time] PReturn).

Definition Z_gate (kw : kwargs) : prog :=
  bit_time kw (λ bit time,
    lt_then [VStr "RZ"; bit; VNum (- pi); time] PReturn).

Definition had_from_rot (kw : kwargs) : prog :=
  bit_time kw (λ bit time,
    lt_then [VStr "RX"; bit; VNum (- pi); time]
      (lt_then [VStr "RY"; bit; VNum (- pi / 2); time] PReturn)).

Definition CNOT_from_CZ (kw : kwargs) : prog :=
  bit0_bit1_time kw (λ bit0 bit1 time,
    lt_then [VStr "RY"; bit1; VNum (- pi / 2); time]
      (lt_then [VStr "CZ"; bit0; bit1; time]
         (lt_then [VStr "RY"; bit1; VNum (pi / 2); time] PReturn))).

End gate_functions.
End gate_functions.

(** ** A device used in the examples

    Two qubits [a] and [b] and a classical bit [c]; primitive gates [X]
    (duration 20), [RX] and [RY] (one [angle], duration 20) and [CZ]
    (duration 40); the composite [CNOT] of [gate_functions.py]; [RXfix], an
    [RX] whose angle is fixed by the binding; [Fail], a composite gate
    that raises; an engine that rejects nothing and leaves the gates as
    they are when the circuit is finalized. *)

Module device.

Definition pi : Qc := Q2Qc (355 # 113).

Definition eng : Engine := MkEngine (λ _ _ _, None) (λ _ _ gates, inr gates).

Definition duration (t : Z) : kwargs * gmap string Qc :=
  (∅, {["gate_time" := Qc_of_Z t]}).

Definition setup : Setup := MkSetup
  (<["a" := ∅]> (<["b" := ∅]> {["c" := {["classical" := VBool true]}]}))
  (<["X" := MkTemplate 1 [] (HName "X")]>
   (<["RX" := MkTemplate 1 ["angle"] (HName "RX")]>
   (<["RY" := MkTemplate 1 ["angle"] (HName "RY")]>
   (<["CZ" := MkTemplate 2 [] (HName "CZ")]>
   (<["CNOT" := MkTemplate 2 [] (HFunc (gate_functions.CNOT_from_CZ pi))]>
   (<["RXfix" := MkTemplate 1 ["angle"] (HName "RX")]>
   {["Fail" := MkTemplate 1 [] (HFunc (λ _, PRaise (GateError "failed")))]}))))))
  (<[["X"; "a"] := duration 20]>
   (<[["RX"; "a"] := duration 20]>
   (<[["RY"; "a"] := duration 20]>
   (<[["RY"; "b"] := duration 20]>
   (<[["CZ"; "a"; "b"] := duration 40]>
   (<[["CNOT"; "a"; "b"] := duration 80]>
   (<[["RXfix"; "a"] := ({["angle" := VNum 1]}, {["gate_time" := Qc_of_Z 20]})]>
   {[["Fail"; "a"] := duration 20]}))))))).

(** A device with the same gates and another binding of [RXfix]. *)
Definition setup' : Setup := MkSetup (qubit_dic setup) (gate_dic setup)
  (<[["RXfix"; "a"] := ({["angle" := VNum 2]}, {["gate_time" := Qc_of_Z 20]})]>
     (gate_set setup)).

Definition no_flag : value := VBool false.

End device.

(** ** The vocabulary of the properties *)

(** [m] takes a state to states related to it by [R], when it returns and
    when it raises. *)
Definition respects (R : relation Builder) {A} (m : M A) : Prop :=
  ∀ b b', final (m b) = Some b' → R b b'.

(** The log and the logging flag are as they were. *)
Definition quiet : relation Builder := λ b b',
  save_flag b' = save_flag b ∧ circuit_list b' = circuit_list b.

(** The logging flag is as it was, and so is the log if the flag is off. *)
Definition steady : relation Builder := λ b b',
  save_flag b' = save_flag b ∧
  (save_flag b = false → circuit_list b' = circuit_list b).

#[export] Instance quiet_preorder : PreOrder quiet.
Proof.
  split; [by intros b|]. intros b1 b2 b3 [H1 H2] [H3 H4]. split; congruence.
Qed.

#[export] Instance steady_preorder : PreOrder steady.
Proof.
  split; [by intros b|]. intros b1 b2 b3 [H1 H2] [H3 H4]. split; [congruence|].
  intros Hf. rewrite H4, H2; [done..|congruence].
Qed.

(** [m'] does what [m] does, wherever [m] does not run out of fuel. *)
Definition fuel_le {A} (m m' : M A) : Prop :=
  ∀ b, m b ≠ OutOfFuel → m' b = m b.

Definition methods_le (self self' : methods) : Prop :=
  (∀ gate_name qubit_list return_flag kw,
      fuel_le (m_add_gate self gate_name qubit_list return_flag kw)
        (m_add_gate self' gate_name qubit_list return_flag kw)) ∧
  (∀ gate_desc, fuel_le (m_lt self gate_desc) (m_lt self' gate_desc)).

(** The two entry points of [self] keep the flag, and the log when the
    flag is off. *)
Definition methods_steady (self : methods) : Prop :=
  (∀ gate_name qubit_list return_flag kw,
      respects steady (m_add_gate self gate_name qubit_list return_flag kw)) ∧
  (∀ gate_desc, respects steady (m_lt self gate_desc)).

(** The gate reference of a handler that is not a composite gate. *)
Definition primitive (gate : handler) : option gate_ref :=
  match gate with
  | HName name => Some (GName name)
  | HClass cls => Some (GClass cls)
  | HFunc _ => None
  end.

(** A description of one gate: a tuple that begins with a name. *)
Definition single (gate_desc : list value) : Prop :=
  ∃ gate_name rest, gate_desc = VStr gate_name :: rest.

(** The firing time of a call without an explicit time: the latest
    clock [start] of its qubits plus the execution offset of the binding,
    or plus half the duration when the binding has no offset. *)
Definition firing_time (ar : Arith) (builder_args : gmap string Qc)
    (gate_time start : Qc) : Qc :=
  py_add ar start (default (py_half ar gate_time) (builder_args !! "exec_time")).

(** The keyword arguments with which the handler is dispatched: those of
    the caller over those of the binding, the firing time, the qubits. *)
Definition scheduled_kwargs (ar : Arith) (qubit_list : list value) (kw : kwargs)
    (args : kwargs * gmap string Qc) (gate_time start : Qc) : kwargs :=
  add_bits qubit_list
    (<["time" := VNum (firing_time ar args.2 gate_time start)]> (kw ∪ args.1)).

(** A qubit named by one of the descriptions of the group. *)
Definition referenced (setup : Setup) (gate_descriptions : list value)
    (q : string) : Prop :=
  ∃ gate_desc qubit_list,
    gate_desc ∈ gate_descriptions ∧
    description_qubits setup gate_desc = inr qubit_list ∧
    VStr q ∈ qubit_list.

(** The description [(gate_name, *qubits, *params, *tail)] of a gate
    with [length qubits] qubits and [length params] parameters. *)
Definition description (gate_name : string) (qubits params tail : list value)
    : list value :=
  VStr gate_name :: qubits ++ params ++ tail.

(** The names under which [add_gate] passes the qubits to the gate. *)
Definition bit_keys (qubit_list : list value) : list string :=
  match qubit_list with
  | [_] => ["bit"]
  | _ => (λ j : nat, "bit" +:+ pretty j) <$> seq 0 (length qubit_list)
  end.

(** The names of the parameters of [add_gate]. *)
Definition reserved_names : list string :=
  ["self"; "gate_name"; "qubit_list"; "return_flag"].

(** A log entry that [__lt__] reads back as the call that wrote it: the
    gate has a template, of the arity of the entry, whose parameter
    names are distinct and are neither names of parameters of
    [add_gate] nor names of qubit keywords, and the return flag, if
    there is one, is a boolean. *)
Definition replayable (setup : Setup) (entry : list value) : Prop :=
  ∃ gate_name qubits params flag tpl,
    entry = log_entry gate_name qubits params (VBool flag) ∧
    gate_dic setup !! gate_name = Some tpl ∧
    length qubits = num_qubits tpl ∧
    length params = length (user_kws tpl) ∧
    NoDup (user_kws tpl) ∧
    Forall (λ k, k ∉ bit_keys qubits) (user_kws tpl) ∧
    Forall (λ k, k ∉ reserved_names) (user_kws tpl).

(** A call of [add_gate]: the gate, the qubits, the return flag and the
    keyword arguments. *)
Record call := Call {
  call_gate : string;
  call_qubits : list value;
  call_flag : value;
  call_kwargs : kwargs
}.

(** The call gets as far as the log (line 348 of [add_gate]): the gate is
    bound to the qubits with a [gate_time], the firing time is given or
    the clocks of the qubits can be read, and, when logging is on, the
    gate has a template whose user parameters all have a value. *)
Definition reaches_log (ar : Arith) (setup : Setup) (c : call) (b : Builder)
    : bool :=
  match prepare ar setup (call_gate c) (call_qubits c) (call_flag c)
          (call_kwargs c) b with
  | Ok _ _ => true
  | Raise _ _ | OutOfFuel => false
  end.

(** Calls of [add_gate] made one after the other by a caller that
    catches what they raise: the number of the calls that got as far as
    the log, and the state reached. *)
Fixpoint top_level_calls (ar : Arith) (eng : Engine) (setup : Setup)
    (fuel : nat) (calls : list call) (b : Builder) : option (nat * Builder) :=
  match calls with
  | [] => Some (0%nat, b)
  | c :: rest =>
      b1 ← final (add_gate ar eng setup fuel (call_gate c) (call_qubits c)
                    (call_flag c) (call_kwargs c) b);
      nb ← top_level_calls ar eng setup fuel rest b1;
      Some ((if reaches_log ar setup c b then S nb.1 else nb.1), nb.2)
  end.

(** * Properties *)

(** ** Running a builder method *)

Lemma bind_run {A B} (m : M A) (f : A → M B) (b : Builder) :
  (m ≫= f) b =
  match m b with
  | Ok a b' => f a b'
  | Raise e b' => Raise e b'
  | OutOfFuel => OutOfFuel
  end.
Proof. reflexivity. Qed.

Lemma bind_Ok {A B} (m : M A) (f : A → M B) b a b1 :
  m b = Ok a b1 → (m ≫= f) b = f a b1.
Proof. intros H. rewrite bind_run, H. reflexivity. Qed.

Lemma bind_Raise {A B} (m : M A) (f : A → M B) b e b1 :
  m b = Raise e b1 → (m ≫= f) b = Raise e b1.
Proof. intros H. rewrite bind_run, H. reflexivity. Qed.

Lemma bind_Ok_inv {A B} (m : M A) (f : A → M B) b r b' :
  (m ≫= f) b = Ok r b' → ∃ a b1, m b = Ok a b1 ∧ f a b1 = Ok r b'.
Proof. rewrite bind_run. destruct (m b); [eauto | done | done]. Qed.

Lemma for_each_cons {A} (f : A → M unit) x l :
  for_each f (x :: l) = f x ≫= λ _, for_each f l.
Proof. reflexivity. Qed.

Lemma lift_Ok_inv {A} e (o : option A) b a b' :
  lift e o b = Ok a b' → o = Some a ∧ b' = b.
Proof. destruct o; [by intros [= -> ->] | done]. Qed.

Lemma lift_Some {A} e (o : option A) a b : o = Some a → lift e o b = Ok a b.
Proof. by intros ->. Qed.

Lemma lift_sum_Ok_inv {A} (r : exn + A) b a b' :
  lift_sum r b = Ok a b' → r = inr a ∧ b' = b.
Proof. destruct r; [done | by intros [= -> ->]]. Qed.

(** ** Relations between the state before and the state after *)

Section respects.
Context (R : relation Builder) `{!PreOrder R}.

Lemma respects_ret {A} (a : A) : respects R (mret a).
Proof. intros b b' [= <-]. reflexivity. Qed.

Lemma respects_raise {A} e : respects R (raise (A:=A) e).
Proof. intros b b' [= <-]. reflexivity. Qed.

Lemma respects_get : respects R get.
Proof. intros b b' [= <-]. reflexivity. Qed.

Lemma respects_lift {A} e (o : option A) : respects R (lift e o).
Proof. destruct o; [apply respects_ret | apply respects_raise]. Qed.

Lemma respects_lift_sum {A} (r : exn + A) : respects R (lift_sum r).
Proof. destruct r; [apply respects_raise | apply respects_ret]. Qed.

Lemma respects_modify f : (∀ b, R b (f b)) → respects R (modify f).
Proof. intros Hf b b' [= <-]. apply Hf. Qed.

Lemma respects_bind {A B} (m : M A) (f : A → M B) :
  respects R m → (∀ a, respects R (f a)) → respects R (m ≫= f).
Proof.
  intros Hm Hf b b'. rewrite bind_run.
  destruct (m b) as [a b1|e b1|] eqn:Em; [| |done].
  - intros H. transitivity b1; [apply Hm; by rewrite Em | by eapply Hf].
  - intros [= <-]. apply Hm. by rewrite Em.
Qed.

Lemma respects_for_each {A} (f : A → M unit) l :
  (∀ x, respects R (f x)) → respects R (for_each f l).
Proof.
  intros Hf. induction l as [|x l IH]; simpl;
    [apply respects_ret | apply respects_bind; auto].
Qed.

Lemma respects_collect {A B} (f : A → M B) l :
  (∀ x, respects R (f x)) → respects R (collect f l).
Proof.
  intros Hf. induction l as [|x l IH]; simpl; [apply respects_ret|].
  apply respects_bind; [auto|]. intros y.
  apply respects_bind; [auto|]. intros ys. apply respects_ret.
Qed.
End respects.

Lemma respects_weaken (R R' : relation Builder) {A} (m : M A) :
  (∀ b b', R b b' → R' b b') → respects R m → respects R' m.
Proof. intros HR Hm b b' H. apply HR, Hm, H. Qed.

Lemma quiet_steady b b' : quiet b b' → steady b b'.
Proof. intros [H1 H2]. by split. Qed.

Ltac respects_step :=
  match goal with
  | |- respects _ (match ?x with _ => _ end) => destruct x
  | |- respects _ (if ?x then _ else _) => destruct x
  | |- respects _ (_ ≫= _) => apply respects_bind; [apply _ .. | | intros ?]
  | |- respects _ (mret _) => apply respects_ret; apply _
  | |- respects _ (raise _) => apply respects_raise; apply _
  | |- respects _ get => apply respects_get; apply _
  | |- respects _ (lift _ _) => apply respects_lift; apply _
  | |- respects _ (lift_sum _) => apply respects_lift_sum; apply _
  | |- respects _ (for_each _ _) => apply respects_for_each; [apply _ .. | intros ?]
  | |- respects _ (collect _ _) => apply respects_collect; [apply _ .. | intros ?]
  | |- respects _ (modify _) =>
      apply respects_modify; [apply _ .. | intros ?; try done; try (by split)]
  end.

(** Equalities between computed values, the rationals compared by their
    canonical fractions. *)
Ltac qc_compute :=
  vm_compute;
  repeat first
    [ reflexivity
    | apply (f_equal (@Some _))
    | apply (f_equal VNum)
    | apply Qc_is_canon; reflexivity ].

Section builder_facts.
Context (ar : Arith) (eng : Engine) (setup : Setup).

Lemma read_clock_respects R `{!PreOrder R} qubit : respects R (read_clock qubit).
Proof. unfold read_clock. repeat respects_step. Qed.

Lemma write_clock_quiet qubit t : respects quiet (write_clock qubit t).
Proof. unfold write_clock. repeat respects_step. Qed.

Lemma max_clock_respects R `{!PreOrder R} qubit_list :
  respects R (max_clock qubit_list).
Proof. unfold max_clock. repeat respects_step. apply read_clock_respects; apply _. Qed.

Lemma schedule_respects R `{!PreOrder R} builder_args gate_time qubit_list kw :
  respects R (schedule ar builder_args gate_time qubit_list kw).
Proof.
  unfold schedule. repeat respects_step; try (apply max_clock_respects; apply _).
Qed.

Lemma record_gate_steady gate_name qubit_list return_flag kw :
  respects steady (record_gate setup gate_name qubit_list return_flag kw).
Proof.
  intros b b'. unfold record_gate. rewrite bind_run. simpl.
  destruct (save_flag b) eqn:Hflag; [|intros [= <-]; by split].
  intros H. split; [|congruence].
  revert H. rewrite bind_run.
  destruct (gate_dic setup !! gate_name); simpl; [|by intros [= <-]].
  rewrite bind_run. destruct (mapM _ _); simpl; by intros [= <-].
Qed.

Lemma engine_add_quiet g kw : respects quiet (engine_add eng g kw).
Proof. unfold engine_add. repeat respects_step. Qed.

Lemma advance_clocks_quiet qubit_list t : respects quiet (advance_clocks qubit_list t).
Proof.
  unfold advance_clocks. repeat respects_step;
    [apply read_clock_respects; apply _ | apply write_clock_quiet].
Qed.

Lemma returned_gate_respects R `{!PreOrder R} return_flag :
  respects R (returned_gate return_flag).
Proof. unfold returned_gate. repeat respects_step. Qed.

(** Whatever was done with the flag off, the flag is back and the log
    is as it was. *)
Lemma guarded_quiet (m : M unit) : respects steady m → respects quiet (guarded m).
Proof.
  intros Hm b b'. unfold guarded.
  destruct (m (set_save_flag false b)) as [r b1|e b1|] eqn:Em; [| |done];
    intros [= <-]; destruct (Hm (set_save_flag false b) b1) as [_ Hlog];
    try (by rewrite Em); split; simpl; auto.
Qed.

Lemma run_prog_steady self p :
  methods_steady self → respects steady (run_prog self p).
Proof.
  intros [Hadd Hlt]. induction p as [|e|d k IH|g q r kw k IH|op k IH|k IH]; simpl.
  - apply respects_ret; apply _.
  - apply respects_raise; apply _.
  - intros b b'. destruct (m_lt self d b) as [a b1|e b1|] eqn:Em; [| |done].
    + intros H. transitivity b1; [apply (Hlt d); by rewrite Em | by eapply IH].
    + intros H. transitivity b1; [apply (Hlt d); by rewrite Em | by eapply IH].
  - intros b b'.
    destruct (m_add_gate self g q r kw b) as [a b1|e b1|] eqn:Em; [| |done].
    + intros H. transitivity b1; [apply (Hadd g q r kw); by rewrite Em | by eapply IH].
    + intros H. transitivity b1; [apply (Hadd g q r kw); by rewrite Em | by eapply IH].
  - apply respects_bind; [apply _ .. | | done].
    apply respects_modify; [apply _ .. | by intros b].
  - intros b b'. apply IH.
Qed.

Lemma dispatch_steady self gate kw :
  methods_steady self → respects steady (dispatch eng self gate kw).
Proof.
  intros Hself. destruct gate; simpl.
  - eapply respects_weaken; [apply quiet_steady | apply engine_add_quiet].
  - eapply respects_weaken; [apply quiet_steady | apply engine_add_quiet].
  - destruct (bool_decide _);
      [apply respects_raise; apply _ | by apply run_prog_steady].
Qed.

Lemma prepare_steady gate_name qubit_list return_flag kw :
  respects steady (prepare ar setup gate_name qubit_list return_flag kw).
Proof.
  unfold prepare. repeat respects_step.
  - apply schedule_respects; apply _.
  - apply record_gate_steady.
Qed.

Lemma complete_quiet self gate_name qubit_list return_flag p :
  methods_steady self →
  respects quiet (complete ar eng setup self gate_name qubit_list return_flag p).
Proof.
  intros Hself. unfold complete.
  apply respects_bind; [apply _ .. | apply respects_lift; apply _ | intros tpl].
  apply respects_bind; [apply _ .. | | intros _].
  { apply guarded_quiet. by apply dispatch_steady. }
  apply respects_bind; [apply _ .. | | intros _].
  { destruct (p.1.2); [apply advance_clocks_quiet | apply respects_ret; apply _]. }
  apply returned_gate_respects; apply _.
Qed.

Lemma add_gate_body_steady self gate_name qubit_list return_flag kw :
  methods_steady self →
  respects steady (add_gate_body ar eng setup self gate_name qubit_list return_flag kw).
Proof.
  intros Hself. unfold add_gate_body.
  apply respects_bind; [apply _ .. | apply prepare_steady | intros p].
  eapply respects_weaken; [apply quiet_steady | by apply complete_quiet].
Qed.

Lemma description_clocks_respects R `{!PreOrder R} gate_desc :
  respects R (description_clocks setup gate_desc).
Proof.
  unfold description_clocks. repeat respects_step. apply read_clock_respects; apply _.
Qed.

Lemma simultaneous_start_quiet gate_descriptions :
  respects quiet (simultaneous_start setup gate_descriptions).
Proof.
  unfold simultaneous_start. repeat respects_step.
  - apply description_clocks_respects; apply _.
  - apply write_clock_quiet.
Qed.

Lemma trailing_fields_respects R `{!PreOrder R} tpl gate_desc :
  respects R (trailing_fields tpl gate_desc).
Proof. unfold trailing_fields. repeat respects_step. Qed.

Lemma lt_body_steady self gate_desc :
  methods_steady self → respects steady (lt_body setup self gate_desc).
Proof.
  intros Hself. unfold lt_body.
  apply respects_bind; [apply _ .. | apply respects_lift; apply _ | intros desc].
  apply respects_bind; [apply _ .. | apply respects_lift; apply _ | intros head].
  assert (respects steady
            (add_gates_simultaneous_body setup self desc ;;
             mret (@None operation))) as Hgroup.
  { unfold add_gates_simultaneous_body. repeat respects_step.
    - eapply respects_weaken; [apply quiet_steady | apply simultaneous_start_quiet].
    - apply Hself. }
  destruct head; try exact Hgroup.
  repeat respects_step; try (apply trailing_fields_respects; apply _). apply Hself.
Qed.

Lemma builder_steady fuel : methods_steady (builder ar eng setup fuel).
Proof.
  induction fuel as [|fuel IH]; split; simpl; intros; try by intros b b'.
  - by apply add_gate_body_steady.
  - by apply lt_body_steady.
Qed.

(** ** What [add_gate] does to the log *)

Lemma schedule_state builder_args gate_time qubit_list kw b sched b' :
  schedule ar builder_args gate_time qubit_list kw b = Ok sched b' → b' = b.
Proof.
  intros H. symmetry.
  apply (schedule_respects eq builder_args gate_time qubit_list kw b b').
  by rewrite H.
Qed.

Lemma record_gate_on gate_name qubit_list return_flag kw b b1 :
  save_flag b = true →
  record_gate setup gate_name qubit_list return_flag kw b = Ok tt b1 →
  ∃ tpl user_data,
    gate_dic setup !! gate_name = Some tpl ∧
    mapM (λ k, kw !! k) (user_kws tpl) = Some user_data ∧
    b1 = set_circuit_list
           (λ l, l ++ [log_entry gate_name qubit_list user_data return_flag]) b.
Proof.
  intros Hflag. unfold record_gate. rewrite bind_run. simpl. rewrite Hflag.
  rewrite bind_run. destruct (gate_dic setup !! gate_name) as [tpl|]; [|done].
  simpl. rewrite bind_run. destruct (mapM _ _) as [user_data|] eqn:Hdata; [|done].
  cbv [lift mret M_ret modify]. intros [= <-].
  by exists tpl, user_data.
Qed.

Lemma record_gate_off gate_name qubit_list return_flag kw b :
  save_flag b = false →
  record_gate setup gate_name qubit_list return_flag kw b = Ok tt b.
Proof. intros Hflag. unfold record_gate. rewrite bind_run. simpl. by rewrite Hflag. Qed.

Lemma prepare_Ok_inv gate_name qubit_list return_flag kw b p b1 :
  prepare ar setup gate_name qubit_list return_flag kw b = Ok p b1 →
  ∃ args gate_time sched,
    binding setup gate_name qubit_list = Some args ∧
    args.2 !! "gate_time" = Some gate_time ∧
    schedule ar args.2 gate_time qubit_list (kw ∪ args.1) b = Ok sched b ∧
    p = (add_bits qubit_list sched.1, sched.2, gate_time) ∧
    record_gate setup gate_name qubit_list return_flag
      (add_bits qubit_list sched.1) b = Ok tt b1.
Proof.
  unfold prepare.
  intros (args & b0 & [Hargs ->]%lift_Ok_inv & H)%bind_Ok_inv.
  apply bind_Ok_inv in H as (gate_time & b0 & [Htime ->]%lift_Ok_inv & H).
  apply bind_Ok_inv in H as (sched & b0 & Hsched & H).
  pose proof (schedule_state _ _ _ _ _ _ _ Hsched) as ->.
  apply bind_Ok_inv in H as ([] & b2 & Hrec & [= <- <-]).
  by exists args, gate_time, sched.
Qed.

Lemma prepare_logged gate_name qubit_list return_flag kw b p b1 :
  save_flag b = true →
  prepare ar setup gate_name qubit_list return_flag kw b = Ok p b1 →
  ∃ tpl user_data,
    gate_dic setup !! gate_name = Some tpl ∧
    mapM (λ k, p.1.1 !! k) (user_kws tpl) = Some user_data ∧
    b1 = set_circuit_list
           (λ l, l ++ [log_entry gate_name qubit_list user_data return_flag]) b.
Proof.
  intros Hflag (args & gate_time & sched & _ & _ & _ & -> & Hrec)%prepare_Ok_inv.
  by apply record_gate_on.
Qed.

Lemma add_gate_Ok_inv fuel gate_name qubit_list return_flag kw b r b' :
  add_gate ar eng setup fuel gate_name qubit_list return_flag kw b = Ok r b' →
  ∃ fuel' p b1,
    fuel = S fuel' ∧
    prepare ar setup gate_name qubit_list return_flag kw b = Ok p b1 ∧
    complete ar eng setup (builder ar eng setup fuel') gate_name qubit_list
      return_flag p b1 = Ok r b'.
Proof.
  destruct fuel as [|fuel']; [done|]. unfold add_gate. simpl. unfold add_gate_body.
  intros (p & b1 & Hprep & Hrest)%bind_Ok_inv. by exists fuel', p, b1.
Qed.

(** A call made while the flag is on, if it returns, has appended its
    description, and nothing else, to the log. *)
Lemma add_gate_logged fuel gate_name qubit_list return_flag kw b r b' :
  save_flag b = true →
  add_gate ar eng setup fuel gate_name qubit_list return_flag kw b = Ok r b' →
  ∃ user_data,
    circuit_list b' =
      circuit_list b ++ [log_entry gate_name qubit_list user_data return_flag] ∧
    save_flag b' = true.
Proof.
  intros Hflag (fuel' & p & b1 & -> & Hprep & Hrest)%add_gate_Ok_inv.
  destruct (prepare_logged _ _ _ _ _ _ _ Hflag Hprep) as (tpl & user_data & _ & _ & ->).
  exists user_data.
  pose proof (complete_quiet (builder ar eng setup fuel') gate_name qubit_list
                return_flag p (builder_steady fuel')) as Hquiet.
  destruct (Hquiet _ b' ltac:(by rewrite Hrest)) as [H1 H2].
  rewrite H1, H2. by split.
Qed.

(** A call made while the flag is off leaves the log alone. *)
Lemma add_gate_silent fuel gate_name qubit_list return_flag kw b b' :
  save_flag b = false →
  final (add_gate ar eng setup fuel gate_name qubit_list return_flag kw b) = Some b' →
  circuit_list b' = circuit_list b ∧ save_flag b' = false.
Proof.
  intros Hflag H.
  destruct (builder_steady fuel) as [Hadd _].
  destruct (Hadd gate_name qubit_list return_flag kw b b' H) as [H1 H2].
  split; [auto | congruence].
Qed.

Lemma failed_dispatch fuel gate_name qubit_list return_flag kw b p b1 tpl e b2 :
  prepare ar setup gate_name qubit_list return_flag kw b = Ok p b1 →
  gate_dic setup !! gate_name = Some tpl →
  dispatch eng (builder ar eng setup fuel) (function tpl) p.1.1
    (set_save_flag false b1) = Raise e b2 →
  add_gate ar eng setup (S fuel) gate_name qubit_list return_flag kw b
    = Raise e (set_save_flag (save_flag b1) b2) ∧
  circuit_list b2 = circuit_list b1 ∧ save_flag b1 = save_flag b.
Proof.
  intros Hprep Htpl Hdisp. split; [|split].
  - unfold add_gate. simpl. unfold add_gate_body.
    rewrite (bind_Ok _ _ _ _ _ Hprep). unfold complete.
    rewrite (bind_Ok _ _ _ _ _ (lift_Some KeyError _ _ _ Htpl)).
    apply bind_Raise. unfold guarded. by rewrite Hdisp.
  - destruct (dispatch_steady (builder ar eng setup fuel) (function tpl) p.1.1
                (builder_steady fuel) (set_save_flag false b1) b2) as [_ H];
      [by rewrite Hdisp | by apply H].
  - destruct (prepare_steady gate_name qubit_list return_flag kw b b1) as [H _];
      [by rewrite Hprep | done].
Qed.

(** ** Clocks *)

Lemma pymax_ge_l a b : (a ≤ pymax a b)%Qc.
Proof. unfold pymax. case_decide; [by apply Qclt_le_weak | done]. Qed.

Lemma pymax_ge_r a b : (b ≤ pymax a b)%Qc.
Proof. unfold pymax. case_decide; [done | by apply Qcnot_lt_le]. Qed.

Lemma pymax_cases a b : pymax a b = a ∨ pymax a b = b.
Proof. unfold pymax. case_decide; auto. Qed.

Lemma pymax_idem a b : pymax (pymax a b) b = pymax a b.
Proof.
  unfold pymax at 1. case_decide as H; [|done].
  exfalso. eapply Qclt_not_le; [exact H | apply pymax_ge_r].
Qed.

Lemma pymax_r a b : (a ≤ b)%Qc → pymax a b = b.
Proof.
  intros H. unfold pymax. case_decide as Hlt; [done|].
  apply Qcnot_lt_le in Hlt. by apply Qcle_antisym.
Qed.

Lemma foldl_pymax_spec l x :
  (foldl pymax x l = x ∨ foldl pymax x l ∈ l) ∧
  (x ≤ foldl pymax x l)%Qc ∧ ∀ y, y ∈ l → (y ≤ foldl pymax x l)%Qc.
Proof.
  revert x. induction l as [|z l IH]; intros x; simpl.
  - split; [by left|]. split; [done|]. intros y Hy. by apply elem_of_nil in Hy.
  - destruct (IH (pymax x z)) as (Hin & Hle & Hall). split; [|split].
    + destruct Hin as [->|Hin]; [|right; by right].
      destruct (pymax_cases x z) as [->| ->]; [by left | right; by left].
    + etrans; [apply pymax_ge_l | exact Hle].
    + intros y [->|Hy]%elem_of_cons; [|by apply Hall].
      etrans; [apply pymax_ge_r | exact Hle].
Qed.

(** [max(l)] is an item of [l] that no item of [l] exceeds. *)
Lemma py_max_spec l m :
  py_max l = Some m → m ∈ l ∧ ∀ y, y ∈ l → (y ≤ m)%Qc.
Proof.
  destruct l as [|x l]; [done|]. intros [= <-].
  destruct (foldl_pymax_spec l x) as (Hin & Hle & Hall). split.
  - destruct Hin as [->|Hin]; [by left | by right].
  - by intros y [->|Hy]%elem_of_cons; [|apply Hall].
Qed.

Lemma read_clock_Ok qubit b t b' :
  read_clock qubit b = Ok t b' ↔
  b' = b ∧ ∃ q, qubit = VStr q ∧ times b !! q = Some t.
Proof.
  unfold read_clock. rewrite bind_run. simpl. split.
  - intros [H ->]%lift_Ok_inv. split; [done|].
    destruct qubit; try done. eauto.
  - intros (-> & q & -> & H). simpl. by rewrite H.
Qed.

Lemma collect_read_clock_Ok qubit_list b ts b' :
  collect read_clock qubit_list b = Ok ts b' ↔
  b' = b ∧ Forall2 (λ qubit t, ∃ q, qubit = VStr q ∧ times b !! q = Some t)
             qubit_list ts.
Proof.
  revert ts b'. induction qubit_list as [|qubit l IH]; intros ts b'; simpl.
  - split; [intros [= <- <-]; by split | intros [-> ->%Forall2_nil_inv_l]; done].
  - split.
    + intros (t & b1 & [-> Hq]%read_clock_Ok & H)%bind_Ok_inv.
      apply bind_Ok_inv in H as (ts' & b2 & [-> Hl]%IH & [= <- <-]).
      split; [done | by constructor].
    + intros [-> (t & ts' & Hq & Hl & ->)%Forall2_cons_inv_l].
      erewrite bind_Ok; [|by apply read_clock_Ok].
      erewrite bind_Ok; [|by apply IH]. done.
Qed.

Lemma max_clock_Ok qubit_list b start b' :
  max_clock qubit_list b = Ok start b' ↔
  b' = b ∧ ∃ ts,
    Forall2 (λ qubit t, ∃ q, qubit = VStr q ∧ times b !! q = Some t)
      qubit_list ts ∧
    py_max ts = Some start.
Proof.
  unfold max_clock. split.
  - intros (ts & b1 & [-> Hts]%collect_read_clock_Ok & [H ->]%lift_Ok_inv)%bind_Ok_inv.
    eauto.
  - intros (-> & ts & Hts & Hmax).
    erewrite bind_Ok; [|by apply collect_read_clock_Ok]. by rewrite Hmax.
Qed.

(** The latest clock is the clock of one of the qubits, and no qubit of
    the call has a later one. *)
Lemma max_clock_spec qubit_list b start b' :
  max_clock qubit_list b = Ok start b' →
  (∃ q, VStr q ∈ qubit_list ∧ times b !! q = Some start) ∧
  (∀ qubit, qubit ∈ qubit_list →
     ∃ q t, qubit = VStr q ∧ times b !! q = Some t ∧ (t ≤ start)%Qc).
Proof.
  intros (-> & ts & Hts & [Hin Hmax]%py_max_spec)%max_clock_Ok. split.
  - apply list_elem_of_lookup in Hin as [i Hi].
    destruct (Forall2_lookup_r _ _ _ _ _ Hts Hi) as (qubit & Hq & q & -> & Ht).
    exists q. split; [|done]. by eapply list_elem_of_lookup_2.
  - intros qubit [i Hi]%list_elem_of_lookup.
    destruct (Forall2_lookup_l _ _ _ _ _ Hts Hi) as (t & Ht & q & -> & Hq).
    exists q, t. repeat split; [done|]. apply Hmax. by eapply list_elem_of_lookup_2.
Qed.

Lemma schedule_explicit builder_args gate_time qubit_list kw b :
  is_Some (kw !! "time") →
  schedule ar builder_args gate_time qubit_list kw b = Ok (kw, None) b.
Proof. intros H. unfold schedule. by rewrite bool_decide_eq_true_2. Qed.

Lemma schedule_computed builder_args gate_time qubit_list kw b start :
  kw !! "time" = None →
  max_clock qubit_list b = Ok start b →
  schedule ar builder_args gate_time qubit_list kw b =
    Ok (<["time" := VNum (firing_time ar builder_args gate_time start)]> kw,
        Some start) b.
Proof.
  intros Hkw Hmax. unfold schedule.
  rewrite bool_decide_eq_false_2; [|rewrite Hkw; by intros [? ?]].
  rewrite (bind_Ok _ _ _ _ _ Hmax). unfold firing_time.
  by destruct (builder_args !! "exec_time").
Qed.

Lemma add_bits_time qubit_list kw : add_bits qubit_list kw !! "time" = kw !! "time".
Proof.
  unfold add_bits.
  assert (∀ (l : list (nat * value)) (m : kwargs),
            foldl (λ m jq, <["bit" +:+ pretty (jq.1 : nat) := jq.2]> m) m l !! "time"
            = m !! "time") as Hfold.
  { induction l as [|jq l IH]; intros m; simpl; [done|].
    rewrite IH. by rewrite lookup_insert_ne. }
  destruct qubit_list as [|qubit [|qubit' l]]; [apply Hfold | | apply Hfold].
  by rewrite lookup_insert_ne.
Qed.

Lemma elem_of_keys q (qubit_list : list value) :
  VStr q ∈ qubit_list ↔ q ∈ omap as_key qubit_list.
Proof.
  rewrite list_elem_of_omap. split.
  - intros H. by exists (VStr q).
  - intros (qubit & H & Hkey). by destruct qubit; simplify_eq/=.
Qed.

Lemma advance_clocks_Ok qubit_list t b b' :
  advance_clocks qubit_list t b = Ok tt b' →
  circuit b' = circuit b ∧ quiet b b' ∧
  (∀ q, VStr q ∈ qubit_list →
     ∃ c, times b !! q = Some c ∧ times b' !! q = Some (pymax c t)) ∧
  (∀ q, VStr q ∉ qubit_list → times b' !! q = times b !! q).
Proof.
  revert b. induction qubit_list as [|qubit l IH]; intros b; simpl.
  - intros [= <-]. split; [done|]. split; [done|]. split; [|done].
    intros q Hin. by apply elem_of_nil in Hin.
  - intros ([] & b1 & H & Hrest)%bind_Ok_inv.
    apply bind_Ok_inv in H as (c0 & b0 & [-> (k & -> & Hk)]%read_clock_Ok & H).
    simpl in H. injection H as <-.
    destruct (IH _ Hrest) as (Hcirc & [Hflag Hlog] & Hin & Hout).
    split; [done|]. split; [by split|]. split.
    + intros q Hq. destruct (decide (q = k)) as [->|Hne].
      * exists c0. split; [done|].
        destruct (decide (k ∈ omap as_key l)) as [Hk'|Hk'].
        -- destruct (Hin k) as (c & Hc & ->); [by apply elem_of_keys|].
           simpl in Hc. rewrite lookup_insert_eq in Hc. injection Hc as <-.
           by rewrite pymax_idem.
        -- rewrite Hout; [simpl; by rewrite lookup_insert_eq | by rewrite elem_of_keys].
      * apply elem_of_cons in Hq as [[= ?]|Hq]; [done|].
        destruct (Hin q Hq) as (c & Hc & ->). simpl in Hc.
        rewrite lookup_insert_ne in Hc by done. eauto.
    + intros q Hq. rewrite Hout; [|intros H; apply Hq; by right].
      simpl. rewrite lookup_insert_ne; [done|]. intros ->. apply Hq. by left.
Qed.

Lemma advance_clocks_total qubit_list t b :
  (∀ qubit, qubit ∈ qubit_list →
     ∃ q, qubit = VStr q ∧ is_Some (times b !! q)) →
  ∃ b', advance_clocks qubit_list t b = Ok tt b'.
Proof.
  revert b. induction qubit_list as [|qubit l IH]; intros b Hall; [by eexists|].
  destruct (Hall qubit) as (k & -> & c & Hk); [by left|].
  unfold advance_clocks. rewrite for_each_cons. fold (advance_clocks l t).
  erewrite bind_Ok; last first.
  { erewrite bind_Ok; [|apply read_clock_Ok; eauto]. reflexivity. }
  apply IH. intros qubit Hin.
  destruct (Hall qubit) as (q & -> & Hq); [by right|].
  exists q. split; [done|]. simpl.
  destruct (decide (k = q)) as [->|Hne];
    [rewrite lookup_insert_eq; eauto | by rewrite lookup_insert_ne].
Qed.

Lemma dispatch_primitive self gate g kw b :
  primitive gate = Some g → dispatch eng self gate kw b = engine_add eng g kw b.
Proof. by destruct gate; intros [= <-]. Qed.

Lemma engine_add_Ok g kw b r b' :
  engine_add eng g kw b = Ok r b' →
  b' = set_circuit (λ gates, gates ++ [Operation g kw]) b.
Proof.
  unfold engine_add. rewrite bind_run. simpl.
  destruct (eng_rejects eng g kw (circuit b)); [done|]. by intros [= <-].
Qed.

Lemma returned_gate_state return_flag b r b' :
  returned_gate return_flag b = Ok r b' → b' = b.
Proof.
  intros H. symmetry. apply (returned_gate_respects eq return_flag b b').
  by rewrite H.
Qed.

(** A call that returns, step by step. *)
Lemma complete_Ok_inv self gate_name qubit_list return_flag p b1 r b' :
  complete ar eng setup self gate_name qubit_list return_flag p b1 = Ok r b' →
  ∃ tpl b2,
    gate_dic setup !! gate_name = Some tpl ∧
    dispatch eng self (function tpl) p.1.1 (set_save_flag false b1) = Ok tt b2 ∧
    match p.1.2 with
    | Some time =>
        advance_clocks qubit_list (py_add ar time p.2) (set_save_flag (save_flag b1) b2)
    | None => Ok tt (set_save_flag (save_flag b1) b2)
    end = Ok tt b' ∧
    returned_gate return_flag b' = Ok r b'.
Proof.
  unfold complete.
  intros (tpl & b0 & [Htpl ->]%lift_Ok_inv & H)%bind_Ok_inv.
  apply bind_Ok_inv in H as ([] & b2 & Hdisp & H).
  apply bind_Ok_inv in H as ([] & b3 & Hadv & Hret).
  pose proof (returned_gate_state _ _ _ _ Hret) as ->.
  unfold guarded in Hdisp.
  destruct (dispatch eng self (function tpl) p.1.1 (set_save_flag false b1))
    as [[] b2'| |] eqn:Hd; [|done..].
  injection Hdisp as <-. exists tpl, b2'.
  split; [done|]. split; [done|]. split; [|done]. by destruct (p.1.2).
Qed.

(** ** Descriptions *)

Lemma trailing_fields_state tpl gate_desc b fields b' :
  trailing_fields tpl gate_desc b = Ok fields b' → b' = b.
Proof.
  intros H. symmetry. apply (trailing_fields_respects eq tpl gate_desc b b').
  by rewrite H.
Qed.

(** [builder < (gate_name, ...)], when it returns, was a call of
    [add_gate]. *)
Lemma lt_single_inv fuel gate_name rest b r b' :
  lt ar eng setup fuel (VTuple (VStr gate_name :: rest)) b = Ok r b' →
  ∃ fuel' tpl fields,
    fuel = S fuel' ∧
    gate_dic setup !! gate_name = Some tpl ∧
    trailing_fields tpl (VStr gate_name :: rest) b = Ok fields b ∧
    reserved (description_kwargs tpl (VStr gate_name :: rest) fields.1) = false ∧
    add_gate ar eng setup fuel' gate_name (take (num_qubits tpl) rest) fields.2
      (description_kwargs tpl (VStr gate_name :: rest) fields.1) b = Ok r b'.
Proof.
  destruct fuel as [|fuel']; [done|]. unfold lt. simpl. unfold lt_body. simpl.
  rewrite bind_run. simpl. rewrite bind_run. simpl.
  intros (tpl & b0 & [Htpl ->]%lift_Ok_inv & H)%bind_Ok_inv.
  apply bind_Ok_inv in H as (fields & b0 & Hfields & H).
  pose proof (trailing_fields_state _ _ _ _ _ Hfields) as ->.
  destruct (reserved _) eqn:Hres; [done|].
  by exists fuel', tpl, fields.
Qed.

Lemma lt_single fuel gate_name rest b tpl fields :
  gate_dic setup !! gate_name = Some tpl →
  trailing_fields tpl (VStr gate_name :: rest) b = Ok fields b →
  reserved (description_kwargs tpl (VStr gate_name :: rest) fields.1) = false →
  lt ar eng setup (S fuel) (VTuple (VStr gate_name :: rest)) b =
  add_gate ar eng setup fuel gate_name (take (num_qubits tpl) rest) fields.2
    (description_kwargs tpl (VStr gate_name :: rest) fields.1) b.
Proof.
  intros Htpl Hfields Hres. unfold lt. simpl. unfold lt_body. simpl.
  rewrite bind_run. simpl. rewrite bind_run. simpl.
  rewrite (bind_Ok _ _ _ _ _ (lift_Some KeyError _ _ _ Htpl)).
  rewrite (bind_Ok _ _ _ _ _ Hfields). by rewrite Hres.
Qed.

Lemma add_circuit_list_length fuel circuit_list0 b r b' :
  Forall single circuit_list0 →
  save_flag b = true →
  add_circuit_list ar eng setup fuel circuit_list0 b = Ok r b' →
  length (circuit_list b') = (length (circuit_list b) + length circuit_list0)%nat ∧
  save_flag b' = true.
Proof.
  revert b r.
  induction circuit_list0 as [|gate_desc l IH]; intros b r Hall Hflag; simpl.
  - intros [= <- <-]. split; [lia | done].
  - apply Forall_cons in Hall as [(gate_name & rest & ->) Hall].
    intros (temp_ag & b1 & Hlt & H)%bind_Ok_inv.
    apply bind_Ok_inv in H as (gates & b2 & Hrest & [= <- <-]).
    apply lt_single_inv in Hlt as (fuel' & tpl & fields & -> & _ & _ & _ & Hadd).
    apply add_gate_logged in Hadd as (user_data & Hlog & Hflag1); [|done].
    destruct (IH _ _ Hall Hflag1 Hrest) as [Hlen Hflag2]. split; [|done].
    rewrite Hlen, Hlog, length_app. simpl. lia.
Qed.

End builder_facts.

(** ** The schedule of a call without an explicit time *)

Section schedule_facts.
Context (ar : Arith) (eng : Engine) (setup : Setup).

Lemma scheduled_kwargs_time qubit_list kw args gate_time start :
  scheduled_kwargs ar qubit_list kw args gate_time start !! "time" =
  Some (VNum (firing_time ar args.2 gate_time start)).
Proof. unfold scheduled_kwargs. by rewrite add_bits_time, lookup_insert_eq. Qed.

Lemma prepare_scheduled_inv gate_name qubit_list return_flag kw b p b1
    args gate_time start :
  binding setup gate_name qubit_list = Some args →
  (kw ∪ args.1) !! "time" = None →
  args.2 !! "gate_time" = Some gate_time →
  max_clock qubit_list b = Ok start b →
  prepare ar setup gate_name qubit_list return_flag kw b = Ok p b1 →
  p = (scheduled_kwargs ar qubit_list kw args gate_time start, Some start, gate_time) ∧
  times b1 = times b ∧ circuit b1 = circuit b.
Proof.
  intros Hargs Hfree Htime Hmax
    (args' & gate_time' & sched & Hargs' & Htime' & Hsched & -> & Hrec)%prepare_Ok_inv.
  assert (args' = args) as -> by congruence.
  assert (gate_time' = gate_time) as -> by congruence.
  rewrite (schedule_computed _ _ _ _ _ _ _ Hfree Hmax) in Hsched.
  injection Hsched as <-. split; [done|].
  destruct (save_flag b) eqn:Hflag.
  - apply record_gate_on in Hrec as (tpl & user_data & _ & _ & ->); done.
  - rewrite record_gate_off in Hrec by done. by injection Hrec as <-.
Qed.

Lemma prepare_scheduled gate_name qubit_list return_flag kw b
    args gate_time start tpl :
  binding setup gate_name qubit_list = Some args →
  (kw ∪ args.1) !! "time" = None →
  args.2 !! "gate_time" = Some gate_time →
  max_clock qubit_list b = Ok start b →
  gate_dic setup !! gate_name = Some tpl →
  (save_flag b = true →
   is_Some (mapM (λ k, scheduled_kwargs ar qubit_list kw args gate_time start !! k)
              (user_kws tpl))) →
  ∃ b1, prepare ar setup gate_name qubit_list return_flag kw b =
          Ok (scheduled_kwargs ar qubit_list kw args gate_time start,
              Some start, gate_time) b1.
Proof.
  intros Hargs Hfree Htime Hmax Htpl Hdata. unfold prepare.
  rewrite (bind_Ok _ _ _ _ _ (lift_Some KeyError _ _ _ Hargs)).
  rewrite (bind_Ok _ _ _ _ _ (lift_Some KeyError _ _ _ Htime)).
  rewrite (bind_Ok _ _ _ _ _ (schedule_computed _ _ _ _ _ _ _ Hfree Hmax)).
  cbn [fst snd]. fold (scheduled_kwargs ar qubit_list kw args gate_time start).
  destruct (save_flag b) eqn:Hflag.
  - destruct (Hdata eq_refl) as [user_data Hud]. eexists.
    erewrite bind_Ok; [reflexivity|].
    unfold record_gate. rewrite bind_run. simpl. rewrite Hflag.
    rewrite (bind_Ok _ _ _ _ _ (lift_Some KeyError _ _ _ Htpl)).
    rewrite (bind_Ok _ _ _ _ _ (lift_Some KeyError _ _ _ Hud)). reflexivity.
  - exists b. erewrite bind_Ok; [reflexivity|]. by apply record_gate_off.
Qed.

(** A call without an explicit time that gets as far as its handler is
    the log and then, from the state with the log written, the dispatch
    of the handler with the firing time, the clocks, the gate handed
    back. *)
Lemma add_gate_dispatches fuel gate_name qubit_list return_flag kw b
    args gate_time start tpl :
  binding setup gate_name qubit_list = Some args →
  (kw ∪ args.1) !! "time" = None →
  args.2 !! "gate_time" = Some gate_time →
  max_clock qubit_list b = Ok start b →
  gate_dic setup !! gate_name = Some tpl →
  (save_flag b = true →
   is_Some (mapM (λ k, scheduled_kwargs ar qubit_list kw args gate_time start !! k)
              (user_kws tpl))) →
  ∃ b1,
    prepare ar setup gate_name qubit_list return_flag kw b =
      Ok (scheduled_kwargs ar qubit_list kw args gate_time start,
          Some start, gate_time) b1 ∧
    times b1 = times b ∧ circuit b1 = circuit b ∧
    add_gate ar eng setup (S fuel) gate_name qubit_list return_flag kw b =
      (guarded (dispatch eng (builder ar eng setup fuel) (function tpl)
                  (scheduled_kwargs ar qubit_list kw args gate_time start)) ;;
       advance_clocks qubit_list (py_add ar start gate_time) ;;
       returned_gate return_flag) b1.
Proof.
  intros Hargs Hfree Htime Hmax Htpl Hdata.
  destruct (prepare_scheduled gate_name qubit_list return_flag kw b args gate_time
              start tpl Hargs Hfree Htime Hmax Htpl Hdata) as [b1 Hprep].
  destruct (prepare_scheduled_inv _ _ _ _ _ _ _ _ _ _ Hargs Hfree Htime Hmax Hprep)
    as (_ & Htimes & Hcirc).
  exists b1. split; [done|]. split; [done|]. split; [done|].
  unfold add_gate. simpl. unfold add_gate_body.
  rewrite (bind_Ok _ _ _ _ _ Hprep). unfold complete.
  by rewrite (bind_Ok _ _ _ _ _ (lift_Some KeyError _ _ _ Htpl)).
Qed.

(** A call without an explicit time that returns: the handler was
    dispatched with the firing time, and the clocks of the qubits of
    the call were then advanced from where the handler left them. *)
Lemma add_gate_scheduled fuel gate_name qubit_list return_flag kw b r b'
    args gate_time start :
  binding setup gate_name qubit_list = Some args →
  (kw ∪ args.1) !! "time" = None →
  args.2 !! "gate_time" = Some gate_time →
  max_clock qubit_list b = Ok start b →
  add_gate ar eng setup fuel gate_name qubit_list return_flag kw b = Ok r b' →
  ∃ fuel' tpl b1 mid,
    fuel = S fuel' ∧
    gate_dic setup !! gate_name = Some tpl ∧
    prepare ar setup gate_name qubit_list return_flag kw b =
      Ok (scheduled_kwargs ar qubit_list kw args gate_time start,
          Some start, gate_time) b1 ∧
    times b1 = times b ∧ circuit b1 = circuit b ∧
    dispatch eng (builder ar eng setup fuel') (function tpl)
      (scheduled_kwargs ar qubit_list kw args gate_time start)
      (set_save_flag false b1) = Ok tt mid ∧
    circuit b' = circuit mid ∧
    (∀ q, VStr q ∈ qubit_list →
       ∃ c, times mid !! q = Some c ∧
            times b' !! q = Some (pymax c (py_add ar start gate_time))) ∧
    (∀ q, VStr q ∉ qubit_list → times b' !! q = times mid !! q).
Proof.
  intros Hargs Hfree Htime Hmax
    (fuel' & p & b1 & -> & Hprep & Hrest)%add_gate_Ok_inv.
  destruct (prepare_scheduled_inv _ _ _ _ _ _ _ _ _ _ Hargs Hfree Htime Hmax Hprep)
    as (-> & Htimes & Hcirc).
  apply complete_Ok_inv in Hrest as (tpl & mid & Htpl & Hdisp & Hadv & _).
  cbn [fst snd] in Hdisp, Hadv.
  apply advance_clocks_Ok in Hadv as (Hcirc' & _ & Hin & Hout).
  by exists fuel', tpl, b1, mid.
Qed.

(** The same call when the handler is a primitive gate: the call returns,
    one operation is handed to the engine, and the clocks are advanced
    from where they were before the call. *)
Lemma add_gate_primitive fuel gate_name qubit_list kw b args gate_time start tpl g :
  binding setup gate_name qubit_list = Some args →
  (kw ∪ args.1) !! "time" = None →
  args.2 !! "gate_time" = Some gate_time →
  max_clock qubit_list b = Ok start b →
  gate_dic setup !! gate_name = Some tpl →
  primitive (function tpl) = Some g →
  (save_flag b = true →
   is_Some (mapM (λ k, scheduled_kwargs ar qubit_list kw args gate_time start !! k)
              (user_kws tpl))) →
  eng_rejects eng g (scheduled_kwargs ar qubit_list kw args gate_time start)
    (circuit b) = None →
  ∃ b',
    add_gate ar eng setup (S fuel) gate_name qubit_list (VBool false) kw b = Ok None b' ∧
    circuit b' = circuit b ++
      [Operation g (scheduled_kwargs ar qubit_list kw args gate_time start)] ∧
    (∀ q, VStr q ∈ qubit_list →
       ∃ c, times b !! q = Some c ∧
            times b' !! q = Some (pymax c (py_add ar start gate_time))) ∧
    (∀ q, VStr q ∉ qubit_list → times b' !! q = times b !! q).
Proof.
  intros Hargs Hfree Htime Hmax Htpl Hprim Hdata Hacc.
  destruct (prepare_scheduled gate_name qubit_list (VBool false) kw b args gate_time
              start tpl Hargs Hfree Htime Hmax Htpl Hdata) as [b1 Hprep].
  destruct (prepare_scheduled_inv _ _ _ _ _ _ _ _ _ _ Hargs Hfree Htime Hmax Hprep)
    as (_ & Htimes & Hcirc).
  set (kw' := scheduled_kwargs ar qubit_list kw args gate_time start) in *.
  set (b2 := set_save_flag (save_flag b1)
               (set_circuit (λ gates, gates ++ [Operation g kw'])
                  (set_save_flag false b1))).
  destruct (advance_clocks_total qubit_list (py_add ar start gate_time) b2) as [b' Hadv].
  { intros qubit Hin.
    destruct (proj2 (max_clock_spec _ _ _ _ Hmax) qubit Hin) as (q & t & -> & Hq & _).
    exists q. split; [done|]. simpl. rewrite Htimes. eauto. }
  exists b'. split.
  - unfold add_gate. simpl. unfold add_gate_body.
    rewrite (bind_Ok _ _ _ _ _ Hprep). unfold complete.
    rewrite (bind_Ok _ _ _ _ _ (lift_Some KeyError _ _ _ Htpl)).
    erewrite bind_Ok; last first.
    { unfold guarded. rewrite (dispatch_primitive _ _ _ g) by done.
      unfold engine_add. rewrite bind_run. simpl. rewrite Hcirc, Hacc. reflexivity. }
    cbn [fst snd]. fold kw'. fold b2. by rewrite (bind_Ok _ _ _ _ _ Hadv).
  - apply advance_clocks_Ok in Hadv as (Hcirc' & _ & Hin & Hout).
    split; [rewrite Hcirc'; simpl; by rewrite Hcirc|].
    simpl in Hin, Hout. rewrite Htimes in Hin, Hout. by split.
Qed.

(** When the end of the gate is not before its start, the clocks of the
    qubits of a primitive gate all end at [start + gate_time]. *)
Lemma clock_after_primitive_gate fuel gate_name qubit_list kw b args gate_time
    start tpl g :
  binding setup gate_name qubit_list = Some args →
  (kw ∪ args.1) !! "time" = None →
  args.2 !! "gate_time" = Some gate_time →
  (start ≤ py_add ar start gate_time)%Qc →
  max_clock qubit_list b = Ok start b →
  gate_dic setup !! gate_name = Some tpl →
  primitive (function tpl) = Some g →
  (save_flag b = true →
   is_Some (mapM (λ k, scheduled_kwargs ar qubit_list kw args gate_time start !! k)
              (user_kws tpl))) →
  eng_rejects eng g (scheduled_kwargs ar qubit_list kw args gate_time start)
    (circuit b) = None →
  ∃ b',
    add_gate ar eng setup (S fuel) gate_name qubit_list (VBool false) kw b = Ok None b' ∧
    ∀ q, VStr q ∈ qubit_list → times b' !! q = Some (py_add ar start gate_time).
Proof.
  intros Hargs Hfree Htime Hpos Hmax Htpl Hprim Hdata Hacc.
  destruct (add_gate_primitive fuel _ _ _ _ _ _ _ _ _
              Hargs Hfree Htime Hmax Htpl Hprim Hdata Hacc)
    as (b' & Hadd & _ & Hin & _).
  exists b'. split; [done|]. intros q Hq.
  destruct (Hin q Hq) as (c & Hc & ->). f_equal. apply pymax_r.
  destruct (proj2 (max_clock_spec _ _ _ _ Hmax) _ Hq) as (q' & t & [= <-] & Ht & Hle).
  assert (t = c) as -> by congruence.
  by etrans.
Qed.

End schedule_facts.

(** ** The start of a simultaneous group *)

Lemma collect_Ok_pure {A B} (f : A → M B) l b ys b' :
  (∀ x b y b', f x b = Ok y b' → b' = b) →
  collect f l b = Ok ys b' →
  b' = b ∧ Forall2 (λ x y, f x b = Ok y b) l ys.
Proof.
  intros Hf. revert ys b'. induction l as [|x l IH]; intros ys b'; simpl.
  - intros [= <- <-]. by split.
  - intros (y & b1 & Hx & H)%bind_Ok_inv.
    pose proof (Hf _ _ _ _ Hx) as ->.
    apply bind_Ok_inv in H as (ys' & b2 & [-> Hl]%IH & [= <- <-]).
    split; [done | by constructor].
Qed.

Lemma elem_of_concat {A} (x : A) (ls : list (list A)) :
  x ∈ concat ls ↔ ∃ l, x ∈ l ∧ l ∈ ls.
Proof.
  induction ls as [|l0 ls IH]; simpl.
  - split; [intros H; by apply elem_of_nil in H|].
    intros (l & _ & H). by apply elem_of_nil in H.
  - rewrite elem_of_app, IH. split.
    + intros [H|(l & H1 & H2)]; [exists l0; split; [done | by left]|].
      exists l. split; [done | by right].
    + intros (l & H1 & [->|H2]%elem_of_cons); [by left | right; eauto].
Qed.

Section simultaneous_facts.
Context (ar : Arith) (eng : Engine) (setup : Setup).

Lemma slice_clocks (desc : list value) b n s cl :
  Forall2 (λ j t, ∃ q, desc !! j = Some (VStr q) ∧ times b !! q = Some t)
    (seq s n) cl →
  Forall2 (λ qubit t, ∃ q, qubit = VStr q ∧ times b !! q = Some t)
    (take n (drop s desc)) cl.
Proof.
  revert s cl. induction n as [|n IH]; intros s cl; simpl.
  - intros ->%Forall2_nil_inv_l. constructor.
  - intros (t & cl' & (q & Hq & Ht) & Hrest & ->)%Forall2_cons_inv_l.
    rewrite (drop_S _ _ _ Hq). simpl. constructor; [eauto | by apply IH].
Qed.

Lemma description_clocks_Ok gate_desc b cl b' :
  description_clocks setup gate_desc b = Ok cl b' →
  b' = b ∧ ∃ qubit_list,
    description_qubits setup gate_desc = inr qubit_list ∧
    Forall2 (λ qubit t, ∃ q, qubit = VStr q ∧ times b !! q = Some t) qubit_list cl.
Proof.
  unfold description_clocks, description_qubits.
  intros (desc & b0 & [Hdesc ->]%lift_Ok_inv & H)%bind_Ok_inv.
  apply bind_Ok_inv in H as (head & b0 & [Hhead ->]%lift_Ok_inv & H).
  apply bind_Ok_inv in H as (tpl & b0 & [Htpl ->]%lift_Ok_inv & H).
  apply collect_Ok_pure in H as [-> Hcl].
  - split; [done|]. rewrite Hdesc, Hhead, Htpl. eexists. split; [done|].
    apply slice_clocks. eapply Forall2_impl; [exact Hcl|].
    intros j t (qubit & b0 & [Hj ->]%lift_Ok_inv & Hread)%bind_Ok_inv.
    apply read_clock_Ok in Hread as (_ & q & -> & Hq). eauto.
  - intros j b0 t b0' (qubit & b1 & [Hj ->]%lift_Ok_inv & Hread)%bind_Ok_inv.
    by apply read_clock_Ok in Hread as [-> _].
Qed.

(** Writing one time to the clocks of a list of qubits. *)
Lemma write_clocks_Ok qubit_list t b b' :
  for_each (λ qubit, write_clock qubit t) qubit_list b = Ok tt b' →
  circuit b' = circuit b ∧ quiet b b' ∧
  ∀ q, times b' !! q =
       if decide (q ∈ omap as_key qubit_list) then Some t else times b !! q.
Proof.
  revert b. induction qubit_list as [|qubit l IH]; intros b.
  - intros [= <-]. split; [done|]. split; [done|]. intros q.
    case_decide as H; [by apply elem_of_nil in H | done].
  - rewrite for_each_cons. intros ([] & b1 & Hw & Hrest)%bind_Ok_inv.
    destruct qubit as [| | |k| |]; try done. simpl in Hw. injection Hw as <-.
    destruct (IH _ Hrest) as (Hcirc & [Hflag Hlog] & Htimes).
    split; [done|]. split; [by split|]. intros q. rewrite Htimes.
    change (omap as_key (VStr k :: l)) with (k :: omap as_key l).
    cbn [times set_times].
    destruct (decide (q = k)) as [->|Hne].
    + rewrite lookup_insert_eq.
      rewrite (decide_True (P := k ∈ k :: omap as_key l)) by (by left).
      by case_decide.
    + rewrite lookup_insert_ne by done.
      case_decide as H1; case_decide as H2; try done.
      * exfalso. apply H2. by right.
      * exfalso. by apply elem_of_cons in H2 as [?|?].
Qed.

(** The second loop of [add_gates_simultaneous]. *)
Lemma set_group_clocks_Ok gate_descriptions t b b' :
  for_each (λ gate_desc,
      qubit_list ← lift_sum (description_qubits setup gate_desc);
      for_each (λ qubit, write_clock qubit t) qubit_list)
    gate_descriptions b = Ok tt b' →
  circuit b' = circuit b ∧ quiet b b' ∧
  ∀ q, (referenced setup gate_descriptions q ∧ times b' !! q = Some t) ∨
       (¬ referenced setup gate_descriptions q ∧ times b' !! q = times b !! q).
Proof.
  revert b. induction gate_descriptions as [|gate_desc l IH]; intros b.
  - intros [= <-]. split; [done|]. split; [done|]. intros q. right.
    split; [|done]. intros (d & qs & Hd & _). by apply elem_of_nil in Hd.
  - rewrite for_each_cons. intros ([] & b1 & Hd & Hrest)%bind_Ok_inv.
    apply bind_Ok_inv in Hd as (qubit_list & b0 & Hqs & Hw).
    destruct (description_qubits setup gate_desc) as [|qs] eqn:Hdq; [done|].
    simpl in Hqs. injection Hqs as <- <-.
    apply write_clocks_Ok in Hw as (Hcirc1 & [Hflag1 Hlog1] & Htimes1).
    destruct (IH _ Hrest) as (Hcirc & [Hflag Hlog] & Htimes).
    split; [congruence|]. split; [split; congruence|]. intros q.
    destruct (Htimes q) as [[Href Hq]|[Href Hq]].
    + left. split; [|done]. destruct Href as (d & qs' & Hin & Hqs' & Hmem).
      exists d, qs'. split; [by right | done].
    + rewrite Hq, Htimes1. case_decide as Hk.
      * left. split; [|done]. exists gate_desc, qs.
        split; [by left|]. split; [done | by apply elem_of_keys].
      * right. split; [|done].
        intros (d & qs' & [->|Hin]%elem_of_cons & Hqs' & Hmem).
        -- apply Hk. apply elem_of_keys. congruence.
        -- apply Href. by exists d, qs'.
Qed.

(** The clocks read by the first loop are those of the referenced
    qubits. *)
Lemma group_clocks gate_descriptions b ts :
  Forall2 (λ gate_desc cl, description_clocks setup gate_desc b = Ok cl b)
    gate_descriptions ts →
  (∀ t, t ∈ concat ts →
     ∃ q, referenced setup gate_descriptions q ∧ times b !! q = Some t) ∧
  (∀ q, referenced setup gate_descriptions q →
     ∃ t, times b !! q = Some t ∧ t ∈ concat ts).
Proof.
  intros Hts. split.
  - intros t (cl & Ht & [i Hi]%list_elem_of_lookup)%elem_of_concat.
    destruct (Forall2_lookup_r _ _ _ _ _ Hts Hi) as (gate_desc & Hd & Hcl).
    apply description_clocks_Ok in Hcl as (_ & qs & Hqs & Hall).
    apply list_elem_of_lookup in Ht as [j Hj].
    destruct (Forall2_lookup_r _ _ _ _ _ Hall Hj) as (qubit & Hq & q & -> & Hclock).
    exists q. split; [|done]. exists gate_desc, qs.
    split; [by eapply list_elem_of_lookup_2|].
    split; [done | by eapply list_elem_of_lookup_2].
  - intros q (gate_desc & qs & [i Hi]%list_elem_of_lookup & Hqs
              & [j Hj]%list_elem_of_lookup).
    destruct (Forall2_lookup_l _ _ _ _ _ Hts Hi) as (cl & Hcl & Hd).
    apply description_clocks_Ok in Hd as (_ & qs' & Hqs' & Hall).
    assert (qs' = qs) as -> by congruence.
    destruct (Forall2_lookup_l _ _ _ _ _ Hall Hj) as (t & Ht & q' & [= <-] & Hclock).
    exists t. split; [done|]. apply elem_of_concat. exists cl.
    split; by eapply list_elem_of_lookup_2.
Qed.

End simultaneous_facts.

(** ** Reading a description *)

Lemma neg_index_last {A} (l : list A) x : neg_index (l ++ [x]) 1 = Some x.
Proof.
  unfold neg_index. rewrite bool_decide_eq_false_2 by lia.
  rewrite length_app. simpl. rewrite bool_decide_eq_true_2 by lia.
  replace (length l + 1 - Z.to_nat 1)%nat with (length l + 0)%nat by lia.
  by rewrite lookup_app_r, Nat.add_0_r, Nat.sub_diag by lia.
Qed.

Lemma neg_index_last_but_one {A} (l : list A) x y : neg_index (l ++ [x; y]) 2 = Some x.
Proof.
  unfold neg_index. rewrite bool_decide_eq_false_2 by lia.
  rewrite length_app. simpl. rewrite bool_decide_eq_true_2 by lia.
  replace (length l + 2 - Z.to_nat 2)%nat with (length l + 0)%nat by lia.
  by rewrite lookup_app_r, Nat.add_0_r, Nat.sub_diag by lia.
Qed.

Lemma zip_app_r {A B} (l : list A) (k k' : list B) :
  length l = length k → zip l (k ++ k') = zip l k.
Proof.
  revert k. induction l as [|x l IH]; intros [|y k]; simpl; try done.
  intros [= H]. by rewrite IH.
Qed.

Section description_facts.
Context (ar : Arith) (eng : Engine) (setup : Setup).

Lemma description_length gate_name qubits params tail :
  length (description gate_name qubits params tail) =
  (length params + length qubits + 1 + length tail)%nat.
Proof. unfold description. simpl. rewrite !length_app. lia. Qed.

Lemma trailing_fields_none tpl gate_name qubits params b :
  length qubits = num_qubits tpl →
  length params = length (user_kws tpl) →
  trailing_fields tpl (description gate_name qubits params []) b
    = Ok (VNone, VBool false) b.
Proof.
  intros Hq Hp. unfold trailing_fields. rewrite description_length. simpl.
  rewrite !bool_decide_eq_false_2 by lia.
  by rewrite bool_decide_eq_true_2 by lia.
Qed.

Lemma trailing_fields_one tpl gate_name qubits params x b :
  length qubits = num_qubits tpl →
  length params = length (user_kws tpl) →
  trailing_fields tpl (description gate_name qubits params [x]) b
    = Ok (if is_bool x then (VNone, x) else (x, VBool false)) b.
Proof.
  intros Hq Hp. unfold trailing_fields. rewrite description_length. simpl.
  rewrite bool_decide_eq_true_2 by lia.
  unfold description. rewrite !app_comm_cons, !app_assoc, neg_index_last.
  rewrite bind_run. simpl. by destruct (is_bool x).
Qed.

Lemma trailing_fields_two tpl gate_name qubits params time flag b :
  length qubits = num_qubits tpl →
  length params = length (user_kws tpl) →
  eq_type flag TBool = false →
  trailing_fields tpl (description gate_name qubits params [time; flag]) b
    = Raise AssertionError b.
Proof.
  intros Hq Hp Hflag. unfold trailing_fields. rewrite description_length. simpl.
  rewrite bool_decide_eq_false_2 by lia. rewrite bool_decide_eq_true_2 by lia.
  assert (neg_index (description gate_name qubits params [time; flag]) 1
          = Some flag) as ->.
  { replace (description gate_name qubits params [time; flag])
      with ((VStr gate_name :: qubits ++ params ++ [time]) ++ [flag]).
    - apply neg_index_last.
    - unfold description. simpl. by rewrite <-!app_assoc. }
  assert (neg_index (description gate_name qubits params [time; flag]) 2
          = Some time) as ->.
  { replace (description gate_name qubits params [time; flag])
      with ((VStr gate_name :: qubits ++ params) ++ [time; flag]).
    - apply neg_index_last_but_one.
    - unfold description. simpl. by rewrite <-!app_assoc. }
  rewrite bind_run. simpl. rewrite bind_run. simpl. by rewrite Hflag.
Qed.

(** [builder < description], once the trailing fields are read. *)
Lemma lt_description fuel gate_name qubits params tail tpl b fields :
  gate_dic setup !! gate_name = Some tpl →
  length qubits = num_qubits tpl →
  length params = length (user_kws tpl) →
  trailing_fields tpl (description gate_name qubits params tail) b = Ok fields b →
  let kw := dict_of (zip (user_kws tpl) params) in
  let kw := if truthy fields.1 then <["time" := fields.1]> kw else kw in
  reserved kw = false →
  lt ar eng setup (S fuel) (VTuple (description gate_name qubits params tail)) b =
  add_gate ar eng setup fuel gate_name qubits fields.2 kw b.
Proof.
  intros Htpl Hq Hp Hfields kw0 kw Hres.
  assert (description_kwargs tpl (description gate_name qubits params tail) fields.1
          = kw) as Hkw.
  { unfold description_kwargs, description.
    replace (drop (num_qubits tpl + 1) (VStr gate_name :: qubits ++ params ++ tail))
      with (params ++ tail).
    - by rewrite zip_app_r.
    - rewrite Nat.add_1_r. simpl. by rewrite <-Hq, drop_app_length. }
  unfold description in *. erewrite lt_single; [| done | done | by rewrite Hkw].
  rewrite Hkw. by rewrite <-Hq, take_app_length.
Qed.

Lemma lt_description_raises fuel gate_name qubits params tail tpl b e :
  gate_dic setup !! gate_name = Some tpl →
  trailing_fields tpl (description gate_name qubits params tail) b = Raise e b →
  lt ar eng setup (S fuel) (VTuple (description gate_name qubits params tail)) b
    = Raise e b.
Proof.
  intros Htpl Hfields. unfold lt. simpl. unfold lt_body. simpl.
  rewrite bind_run. simpl. rewrite bind_run. simpl.
  rewrite (bind_Ok _ _ _ _ _ (lift_Some KeyError _ _ _ Htpl)).
  by rewrite (bind_Raise _ _ _ _ _ Hfields).
Qed.

(** A call with a [time] among its keyword arguments that returns: the
    handler was dispatched with that time and [add_gate] then left the
    clocks as the handler left them. *)
Lemma add_gate_explicit fuel gate_name qubit_list return_flag kw b r b' args t :
  binding setup gate_name qubit_list = Some args →
  (kw ∪ args.1) !! "time" = Some t →
  add_gate ar eng setup fuel gate_name qubit_list return_flag kw b = Ok r b' →
  ∃ fuel' tpl b1 mid kw',
    fuel = S fuel' ∧
    gate_dic setup !! gate_name = Some tpl ∧
    times b1 = times b ∧
    dispatch eng (builder ar eng setup fuel') (function tpl) kw'
      (set_save_flag false b1) = Ok tt mid ∧
    kw' !! "time" = Some t ∧
    times b' = times mid ∧
    (is_Some (primitive (function tpl)) → times b' = times b).
Proof.
  intros Hargs Htime (fuel' & p & b1 & -> & Hprep & Hrest)%add_gate_Ok_inv.
  pose proof Hprep as
    (args' & gate_time & sched & Hargs' & _ & Hsched & -> & Hrec)%prepare_Ok_inv.
  assert (args' = args) as -> by congruence.
  rewrite schedule_explicit in Hsched by (rewrite Htime; eauto).
  injection Hsched as <-.
  apply complete_Ok_inv in Hrest as (tpl & mid & Htpl & Hdisp & Hadv & _).
  cbn [fst snd] in Hdisp, Hadv. injection Hadv as <-.
  assert (times b1 = times b) as Htimes.
  { destruct (save_flag b) eqn:Hflag.
    - apply record_gate_on in Hrec as (tpl' & user_data & _ & _ & ->); done.
    - rewrite record_gate_off in Hrec by done. by injection Hrec as <-. }
  exists fuel', tpl, b1, mid, (add_bits qubit_list (kw ∪ args.1)).
  split; [done|]. split; [done|]. split; [done|]. split; [done|].
  split; [by rewrite add_bits_time|]. split; [done|].
  intros [g Hg]. rewrite (dispatch_primitive eng _ _ g) in Hdisp by done.
  apply engine_add_Ok in Hdisp as ->. done.
Qed.

(** A description with one trailing field that is not a boolean and is
    true in the sense of [if time:] is a call at that time: the handler
    is dispatched with it, and [add_gate] leaves the clocks alone. *)
Lemma explicit_time_description fuel gate_name qubits params t tpl args b r b' :
  gate_dic setup !! gate_name = Some tpl →
  length qubits = num_qubits tpl →
  length params = length (user_kws tpl) →
  is_bool t = false →
  truthy t = true →
  reserved (<["time" := t]> (dict_of (zip (user_kws tpl) params))) = false →
  binding setup gate_name qubits = Some args →
  lt ar eng setup fuel (VTuple (description gate_name qubits params [t])) b = Ok r b' →
  ∃ fuel' b1 mid kw',
    fuel = S (S fuel') ∧
    dispatch eng (builder ar eng setup fuel') (function tpl) kw'
      (set_save_flag false b1) = Ok tt mid ∧
    kw' !! "time" = Some t ∧
    times b1 = times b ∧
    times b' = times mid ∧
    (is_Some (primitive (function tpl)) → times b' = times b).
Proof.
  intros Htpl Hq Hp Hbool Htrue Hres Hargs Hlt.
  destruct fuel as [|fuel]; [done|].
  pose proof (lt_description fuel gate_name qubits params [t] tpl b
                (t, VBool false) Htpl Hq Hp) as Heq.
  rewrite trailing_fields_one, Hbool in Heq by done.
  specialize (Heq eq_refl). cbn [fst snd] in Heq. rewrite Htrue in Heq.
  rewrite (Heq Hres) in Hlt. clear Heq.
  eapply add_gate_explicit in Hlt
    as (fuel' & tpl' & b1 & mid & kw' & -> & Htpl' & Htimes & Hdisp & Htime
        & Hmid & Hprim);
    [| done
     | by rewrite lookup_union_l', lookup_insert_eq
         by (rewrite lookup_insert_eq; eauto)].
  assert (tpl' = tpl) as -> by congruence.
  by exists fuel', b1, mid, kw'.
Qed.

End description_facts.

(** ** What is logged and what a replay makes of it *)

Lemma mapM_agree {A B} (f g : A → option B) (l : list A) :
  Forall (λ x, f x = g x) l → mapM f l = mapM g l.
Proof.
  induction 1 as [|x l Hx _ IH]; [done|]. simpl. by rewrite Hx, IH.
Qed.

Lemma foldl_insert_notin (ks : list string) (vs : list value) (m : kwargs) k :
  k ∉ ks → foldl (λ m p, <[p.1 := p.2]> m) m (zip ks vs) !! k = m !! k.
Proof.
  revert vs m. induction ks as [|k0 ks IH]; intros [|v0 vs] m Hk; simpl; try done.
  rewrite IH; [|intros H; apply Hk; by right].
  rewrite lookup_insert_ne; [done|]. intros ->. apply Hk. by left.
Qed.

(** The dictionary built from distinct names gives each name its value. *)
Lemma dict_of_zip_mapM (ks : list string) (vs : list value) :
  NoDup ks → length ks = length vs →
  mapM (λ k, dict_of (zip ks vs) !! k) ks = Some vs.
Proof.
  intros Hnd Hlen. apply mapM_Some_2. unfold dict_of.
  generalize (∅ : kwargs). revert vs Hlen.
  induction Hnd as [|k0 ks Hk0 Hnd IH]; intros [|v0 vs] Hlen m; simpl in *; try done.
  constructor; [|apply IH; lia].
  by rewrite foldl_insert_notin, lookup_insert_eq.
Qed.

(** The dictionary built from the values that [kw] has at the names
    [ks] is [kw] restricted to [ks]. *)
Lemma dict_of_zip_lookup (kw : kwargs) (ks : list string) (vs : list value) k :
  mapM (λ k, kw !! k) ks = Some vs →
  dict_of (zip ks vs) !! k = if decide (k ∈ ks) then kw !! k else None.
Proof.
  intros Hvs%mapM_Some_1. unfold dict_of.
  assert (∀ m : kwargs,
            foldl (λ m p, <[p.1 := p.2]> m) m (zip ks vs) !! k
            = if decide (k ∈ ks) then kw !! k else m !! k) as H; [|by rewrite H].
  induction Hvs as [|k0 v0 ks vs Hk0 _ IH]; intros m; simpl.
  - done.
  - rewrite IH. case_decide as Hin.
    + by rewrite decide_True by (by right).
    + destruct (decide (k = k0)) as [->|Hne].
      * by rewrite lookup_insert_eq, decide_True by (by left).
      * rewrite lookup_insert_ne by done.
        by rewrite decide_False by (by intros [?|?]%elem_of_cons).
Qed.

Section replay_facts.
Context (ar : Arith) (eng : Engine) (setup : Setup).

Lemma add_bits_other qubit_list kw k :
  k ∉ bit_keys qubit_list → add_bits qubit_list kw !! k = kw !! k.
Proof.
  assert (∀ (l : list (nat * value)) (m : kwargs),
            k ∉ (λ j : nat, "bit" +:+ pretty j) <$> l.*1 →
            foldl (λ m jq, <["bit" +:+ pretty (jq.1 : nat) := jq.2]> m) m l !! k
            = m !! k) as Hfold.
  { induction l as [|jq l IH]; intros m Hk; simpl; [done|].
    rewrite IH; [|intros H; apply Hk; by right].
    rewrite lookup_insert_ne; [done|]. intros <-. apply Hk. by left. }
  unfold add_bits, bit_keys.
  destruct qubit_list as [|qubit [|qubit' l]]; intros Hk.
  - done.
  - rewrite lookup_insert_ne; [done|]. intros <-. apply Hk. by left.
  - apply Hfold. by rewrite fst_zip by (by rewrite length_seq).
Qed.

Lemma schedule_Ok_inv builder_args gate_time qubit_list kw b sched b' :
  schedule ar builder_args gate_time qubit_list kw b = Ok sched b' →
  (is_Some (kw !! "time") ∧ sched.1 = kw) ∨
  (kw !! "time" = None ∧ ∃ t, sched.1 = <["time" := t]> kw).
Proof.
  unfold schedule. case_bool_decide as Htime.
  - intros [= <- <-]. by left.
  - intros (time & b0 & _ & H)%bind_Ok_inv. right.
    split; [by apply eq_None_not_Some|].
    destruct (builder_args !! "exec_time"); injection H as <- <-; eauto.
Qed.

(** What the log gets when the caller gives every user parameter. *)
Lemma add_gate_logs_caller_values fuel gate_name qubit_list return_flag kw
    b r b' tpl user_data :
  save_flag b = true →
  gate_dic setup !! gate_name = Some tpl →
  mapM (λ k, kw !! k) (user_kws tpl) = Some user_data →
  Forall (λ k, k ∉ bit_keys qubit_list) (user_kws tpl) →
  add_gate ar eng setup fuel gate_name qubit_list return_flag kw b = Ok r b' →
  circuit_list b' =
    circuit_list b ++ [log_entry gate_name qubit_list user_data return_flag] ∧
  save_flag b' = true.
Proof.
  intros Hflag Htpl Hdata Hbits Hadd.
  pose proof Hadd as (fuel' & p & b1 & -> & Hprep & Hrest)%add_gate_Ok_inv.
  apply prepare_Ok_inv in Hprep
    as (args & gate_time & sched & _ & _ & Hsched & -> & Hrec).
  apply record_gate_on in Hrec as (tpl' & user_data' & Htpl' & Hdata' & ->); [|done].
  assert (tpl' = tpl) as -> by congruence.
  assert (user_data' = user_data) as ->.
  { assert (Some user_data' = Some user_data) as [= ->]; [|done].
    rewrite <-Hdata', <-Hdata. apply mapM_agree.
    assert (Forall (is_Some ∘ (λ k, kw !! k)) (user_kws tpl)) as Hsome
      by (apply mapM_is_Some_1; eauto).
    rewrite Forall_forall in Hbits, Hsome. apply Forall_forall. intros k Hk.
    rewrite add_bits_other by (by apply Hbits).
    specialize (Hsome k Hk). simpl in Hsome.
    apply schedule_Ok_inv in Hsched as [[_ ->]|[Hnone [t ->]]].
    - by apply lookup_union_l'.
    - rewrite lookup_insert_ne; [by apply lookup_union_l'|].
      intros <-. apply lookup_union_None in Hnone as [Hnone _].
      rewrite Hnone in Hsome. by destruct Hsome. }
  pose proof (complete_quiet ar eng setup (builder ar eng setup fuel') gate_name
                qubit_list return_flag
                (add_bits qubit_list sched.1, sched.2, gate_time)
                (builder_steady ar eng setup fuel')) as Hquiet.
  destruct (Hquiet _ b' ltac:(by rewrite Hrest)) as [H1 H2].
  rewrite H1, H2. by split.
Qed.

(** A log entry with a boolean return flag, read back by [__lt__], is
    the call with the logged values as keyword arguments. *)
Lemma replay_entry fuel gate_name qubit_list user_data flag tpl b :
  gate_dic setup !! gate_name = Some tpl →
  length qubit_list = num_qubits tpl →
  length user_data = length (user_kws tpl) →
  reserved (dict_of (zip (user_kws tpl) user_data)) = false →
  lt ar eng setup (S fuel)
    (VTuple (log_entry gate_name qubit_list user_data (VBool flag))) b =
  add_gate ar eng setup fuel gate_name qubit_list (VBool flag)
    (dict_of (zip (user_kws tpl) user_data)) b.
Proof.
  intros Htpl Hq Hp Hres. destruct flag; unfold log_entry; simpl.
  - change (VStr gate_name :: qubit_list ++ user_data ++ [VBool true])
      with (description gate_name qubit_list user_data [VBool true]).
    by rewrite (lt_description ar eng setup fuel gate_name qubit_list user_data
                  [VBool true] tpl b (VNone, VBool true) Htpl Hq Hp
                  (trailing_fields_one _ _ _ _ _ _ Hq Hp)).
  - replace (VStr gate_name :: qubit_list ++ user_data)
      with (description gate_name qubit_list user_data [])
      by (unfold description; by rewrite app_nil_r).
    by rewrite (lt_description ar eng setup fuel gate_name qubit_list user_data
                  [] tpl b (VNone, VBool false) Htpl Hq Hp
                  (trailing_fields_none _ _ _ _ _ Hq Hp)).
Qed.

Lemma reserved_zip (ks : list string) (vs : list value) :
  Forall (λ k, k ∉ reserved_names) ks → reserved (dict_of (zip ks vs)) = false.
Proof.
  intros Hks. rewrite Forall_forall in Hks.
  assert (∀ k, k ∈ reserved_names → ¬ is_Some (dict_of (zip ks vs) !! k)) as Hno.
  { intros k Hk [v Hv]. destruct (decide (k ∈ ks)) as [Hin|Hin].
    - by apply (Hks k).
    - unfold dict_of in Hv. by rewrite foldl_insert_notin in Hv. }
  unfold reserved. apply bool_decide_eq_false_2.
  intros [H|[H|[H|H]]]; revert H; apply Hno; unfold reserved_names; set_solver.
Qed.

Lemma log_entry_description gate_name qubit_list user_data return_flag :
  log_entry gate_name qubit_list user_data return_flag =
  description gate_name qubit_list user_data
    (if is_False return_flag then [] else [return_flag]).
Proof.
  unfold log_entry, description. destruct (is_False return_flag); [|done].
  by rewrite app_nil_r.
Qed.

Lemma replay_logs_entry fuel entry b r b' :
  replayable setup entry →
  save_flag b = true →
  lt ar eng setup fuel (VTuple entry) b = Ok r b' →
  circuit_list b' = circuit_list b ++ [entry] ∧ save_flag b' = true.
Proof.
  intros (gate_name & qubits & params & flag & tpl & -> & Htpl & Hq & Hp
          & Hnd & Hbits & Hres) Hflag Hlt.
  destruct fuel as [|fuel]; [done|].
  rewrite (replay_entry fuel _ _ _ _ tpl) in Hlt by (done || by apply reserved_zip).
  eapply add_gate_logs_caller_values in Hlt; [done.. | | done].
  by apply dict_of_zip_mapM.
Qed.

Lemma add_circuit_list_replay fuel entries b r b' :
  Forall (replayable setup) entries →
  save_flag b = true →
  add_circuit_list ar eng setup fuel entries b = Ok r b' →
  circuit_list b' = circuit_list b ++ entries ∧ save_flag b' = true.
Proof.
  revert b r. induction entries as [|entry l IH]; intros b r Hall Hflag; simpl.
  - intros [= <- <-]. by rewrite app_nil_r.
  - apply Forall_cons in Hall as [Hentry Hall].
    intros (temp_ag & b1 & Hlt & H)%bind_Ok_inv.
    apply bind_Ok_inv in H as (gates & b2 & Hrest & [= <- <-]).
    destruct (replay_logs_entry _ _ _ _ _ Hentry Hflag Hlt) as [Hlog1 Hflag1].
    destruct (IH _ _ Hall Hflag1 Hrest) as [Hlog Hflag2]. split; [|done].
    by rewrite Hlog, Hlog1, <-app_assoc.
Qed.

Lemma finalize_quiet topo_order t_add : respects quiet (finalize ar eng topo_order t_add).
Proof. unfold finalize. repeat respects_step. Qed.

Lemma reverse_descs_Forall2 entries entries' :
  reverse_descs setup entries = inr entries' →
  Forall2 (λ entry entry', reverse_desc setup entry = inr entry') entries entries'.
Proof.
  revert entries'. induction entries as [|entry l IH]; intros entries'; simpl.
  - intros [= <-]. constructor.
  - destruct (reverse_desc setup entry) as [|entry'] eqn:He; [done|].
    destruct (reverse_descs setup l) as [|l']; [done|].
    intros [= <-]. constructor; [done | by apply IH].
Qed.

Lemma description_lookup_param gate_name qubits params tail j :
  (j < length params)%nat →
  description gate_name qubits params tail !! (length qubits + 1 + j)%nat
    = params !! j.
Proof.
  intros Hj. unfold description.
  replace (length qubits + 1 + j)%nat with (S (length qubits + j)) by lia.
  simpl. rewrite lookup_app_r by lia.
  replace (length qubits + j - length qubits)%nat with j by lia.
  by rewrite lookup_app_l.
Qed.

Lemma description_insert_param gate_name qubits params tail j v :
  (j < length params)%nat →
  <[(length qubits + 1 + j)%nat := v]> (description gate_name qubits params tail)
    = description gate_name qubits (<[j := v]> params) tail.
Proof.
  intros Hj. unfold description.
  replace (length qubits + 1 + j)%nat with (S (length qubits + j)) by lia.
  simpl. f_equal. rewrite insert_app_r. f_equal. by rewrite insert_app_l.
Qed.

(** Lines 115-119 on a log entry of a gate with an [angle]. *)
Lemma reverse_desc_angle gate_name qubits params return_flag tpl j x v v' :
  gate_dic setup !! gate_name = Some tpl →
  length qubits = num_qubits tpl →
  list_find (λ kw, kw = "angle") (user_kws tpl) = Some (j, x) →
  params !! j = Some v →
  negate v = inr v' →
  reverse_desc setup (log_entry gate_name qubits params return_flag)
    = inr (log_entry gate_name qubits (<[j := v']> params) return_flag).
Proof.
  intros Htpl Hq Hfind Hv Hneg. rewrite !log_entry_description.
  unfold reverse_desc. simpl. rewrite Htpl, Hfind. rewrite <-Hq.
  apply lookup_lt_Some in Hv as Hj.
  rewrite description_lookup_param, Hv, Hneg by done.
  by rewrite description_insert_param.
Qed.

(** A gate without an [angle] is taken to be its own inverse. *)
Lemma reverse_desc_no_angle gate_name qubits params return_flag tpl :
  gate_dic setup !! gate_name = Some tpl →
  list_find (λ kw, kw = "angle") (user_kws tpl) = None →
  reverse_desc setup (log_entry gate_name qubits params return_flag)
    = inr (log_entry gate_name qubits params return_flag).
Proof.
  intros Htpl Hfind. rewrite !log_entry_description.
  unfold reverse_desc. simpl. by rewrite Htpl, Hfind.
Qed.

Lemma reverse_desc_replayable entry entry' :
  replayable setup entry →
  reverse_desc setup entry = inr entry' →
  replayable setup entry'.
Proof.
  intros (gate_name & qubits & params & flag & tpl & -> & Htpl & Hq & Hp
          & Hnd & Hbits & Hres) Hrev.
  destruct (list_find (λ kw, kw = "angle") (user_kws tpl)) as [[j x]|] eqn:Hfind.
  - destruct (params !! j) as [v|] eqn:Hv.
    + destruct (negate v) as [e|v'] eqn:Hneg.
      * revert Hrev. rewrite log_entry_description. unfold reverse_desc. simpl.
        rewrite Htpl, Hfind, <-Hq.
        apply lookup_lt_Some in Hv as Hj.
        by rewrite description_lookup_param, Hv, Hneg by done.
      * rewrite (reverse_desc_angle _ _ _ _ _ _ _ _ _ Htpl Hq Hfind Hv Hneg) in Hrev.
        injection Hrev as <-.
        exists gate_name, qubits, (<[j := v']> params), flag, tpl.
        by rewrite length_insert.
    + apply list_find_Some in Hfind as (Hx & _).
      apply lookup_lt_Some in Hx. apply lookup_ge_None in Hv. lia.
  - rewrite (reverse_desc_no_angle _ _ _ _ _ Htpl Hfind) in Hrev.
    injection Hrev as <-. by exists gate_name, qubits, params, flag, tpl.
Qed.

Lemma reverse_descs_replayable entries entries' :
  Forall2 (λ entry entry', reverse_desc setup entry = inr entry') entries entries' →
  Forall (replayable setup) entries → Forall (replayable setup) entries'.
Proof.
  induction 1 as [|e e' l l' He _ IH]; [done|].
  intros [? ?]%Forall_cons. constructor; [by eapply reverse_desc_replayable | auto].
Qed.

End replay_facts.

(** ** More fuel changes nothing

    A call that returns or raises with some bound on the depth of the
    nested calls does the same with any larger bound. *)

Lemma fuel_le_refl {A} (m : M A) : fuel_le m m.
Proof. by intros b _. Qed.

Lemma fuel_le_bind {A B} (m m' : M A) (f f' : A → M B) :
  fuel_le m m' → (∀ a, fuel_le (f a) (f' a)) → fuel_le (m ≫= f) (m' ≫= f').
Proof.
  intros Hm Hf b. rewrite !bind_run.
  destruct (m b) as [a b1|e b1|] eqn:Em; [| |done].
  - intros H. rewrite (Hm b), Em by (by rewrite Em). by apply Hf.
  - intros _. by rewrite (Hm b), Em by (by rewrite Em).
Qed.

Lemma fuel_le_for_each {A} (f f' : A → M unit) l :
  (∀ x, fuel_le (f x) (f' x)) → fuel_le (for_each f l) (for_each f' l).
Proof.
  intros Hf. induction l as [|x l IH]; [apply fuel_le_refl|].
  rewrite !for_each_cons. apply fuel_le_bind; auto.
Qed.

Lemma fuel_le_guarded (m m' : M unit) :
  fuel_le m m' → fuel_le (guarded m) (guarded m').
Proof.
  intros Hm b. unfold guarded.
  destruct (m (set_save_flag false b)) as [r b1|e b1|] eqn:Em; [| |done];
    intros _; by rewrite (Hm (set_save_flag false b)), Em by (by rewrite Em).
Qed.

Lemma fuel_le_run_prog self self' p :
  methods_le self self' → fuel_le (run_prog self p) (run_prog self' p).
Proof.
  intros [Hadd Hlt]. induction p as [|e|d k IH|g q r kw k IH|op k IH|k IH]; simpl.
  - apply fuel_le_refl.
  - apply fuel_le_refl.
  - intros b. destruct (m_lt self d b) as [a b1|e b1|] eqn:Em; [| |done];
      intros H; rewrite (Hlt d b), Em by (by rewrite Em); by apply IH.
  - intros b. destruct (m_add_gate self g q r kw b) as [a b1|e b1|] eqn:Em; [| |done];
      intros H; rewrite (Hadd g q r kw b), Em by (by rewrite Em); by apply IH.
  - apply fuel_le_bind; [apply fuel_le_refl | done].
  - intros b. apply IH.
Qed.

Section fuel_facts.
Context (ar : Arith) (eng : Engine) (setup : Setup).

Lemma fuel_le_add_gate_body self self' gate_name qubit_list return_flag kw :
  methods_le self self' →
  fuel_le (add_gate_body ar eng setup self gate_name qubit_list return_flag kw)
    (add_gate_body ar eng setup self' gate_name qubit_list return_flag kw).
Proof.
  intros Hself. unfold add_gate_body, complete.
  apply fuel_le_bind; [apply fuel_le_refl | intros p].
  apply fuel_le_bind; [apply fuel_le_refl | intros tpl].
  apply fuel_le_bind; [|intros _; apply fuel_le_refl].
  apply fuel_le_guarded. destruct (function tpl); simpl; try apply fuel_le_refl.
  destruct (bool_decide _); [apply fuel_le_refl | by apply fuel_le_run_prog].
Qed.

Lemma fuel_le_lt_body self self' gate_desc :
  methods_le self self' →
  fuel_le (lt_body setup self gate_desc) (lt_body setup self' gate_desc).
Proof.
  intros Hself. unfold lt_body.
  apply fuel_le_bind; [apply fuel_le_refl | intros desc].
  apply fuel_le_bind; [apply fuel_le_refl | intros head].
  assert (fuel_le (add_gates_simultaneous_body setup self desc ;;
                   mret (@None operation))
            (add_gates_simultaneous_body setup self' desc ;; mret None)) as Hgroup.
  { apply fuel_le_bind; [|intros _; apply fuel_le_refl].
    unfold add_gates_simultaneous_body.
    apply fuel_le_bind; [apply fuel_le_refl | intros _].
    apply fuel_le_for_each. intros d.
    apply fuel_le_bind; [apply Hself | intros _; apply fuel_le_refl]. }
  destruct head; try exact Hgroup.
  apply fuel_le_bind; [apply fuel_le_refl | intros tpl].
  apply fuel_le_bind; [apply fuel_le_refl | intros fields].
  destruct (reserved _); [apply fuel_le_refl | apply Hself].
Qed.

Lemma builder_fuel_le fuel :
  methods_le (builder ar eng setup fuel) (builder ar eng setup (S fuel)).
Proof.
  induction fuel as [|fuel IH]; [split; intros; by intros b|].
  split; intros; [by apply fuel_le_add_gate_body | by apply fuel_le_lt_body].
Qed.

(** The outcome of [add_gate] does not depend on the bound, once the bound
    is large enough for an outcome. *)
Lemma add_gate_more_fuel fuel fuel' gate_name qubit_list return_flag kw b :
  fuel ≤ fuel' →
  add_gate ar eng setup fuel gate_name qubit_list return_flag kw b ≠ OutOfFuel →
  add_gate ar eng setup fuel' gate_name qubit_list return_flag kw b =
  add_gate ar eng setup fuel gate_name qubit_list return_flag kw b.
Proof.
  unfold add_gate. induction 1 as [|fuel' _ IH]; [done|]. intros Hfuel.
  rewrite <-(IH Hfuel). apply builder_fuel_le. by rewrite (IH Hfuel).
Qed.

Lemma lt_more_fuel fuel fuel' gate_desc b :
  fuel ≤ fuel' →
  lt ar eng setup fuel gate_desc b ≠ OutOfFuel →
  lt ar eng setup fuel' gate_desc b = lt ar eng setup fuel gate_desc b.
Proof.
  unfold lt. induction 1 as [|fuel' _ IH]; [done|]. intros Hfuel.
  rewrite <-(IH Hfuel). apply builder_fuel_le. by rewrite (IH Hfuel).
Qed.

End fuel_facts.

(** ** Calls that raise

    A call that raises before line 348 leaves the builder as it was; one
    that raises later has written its log entry. *)

Section call_facts.
Context (ar : Arith) (eng : Engine) (setup : Setup).

Lemma prepare_raises gate_name qubit_list return_flag kw b e b1 :
  prepare ar setup gate_name qubit_list return_flag kw b = Raise e b1 → b1 = b.
Proof.
  unfold prepare. rewrite bind_run.
  destruct (binding setup gate_name qubit_list) as [args|]; simpl;
    [|by intros [= _ <-]].
  rewrite bind_run. destruct (args.2 !! "gate_time") as [gate_time|]; simpl;
    [|by intros [= _ <-]].
  rewrite bind_run.
  destruct (schedule ar _ _ _ _ b) as [sched b0|e0 b0|] eqn:Hsched; [| |done].
  2:{ intros [= _ <-]. symmetry.
      eapply (schedule_respects ar eq); by rewrite Hsched. }
  apply schedule_state in Hsched as ->.
  rewrite bind_run. unfold record_gate. rewrite bind_run. simpl.
  destruct (save_flag b); [|done].
  rewrite bind_run. destruct (gate_dic setup !! gate_name) as [tpl|]; simpl;
    [|by intros [= _ <-]].
  rewrite bind_run. by destruct (mapM _ (user_kws tpl)); simpl; [|intros [= _ <-]].
Qed.

(** What a top-level call has done to the log when it is over, whether
    it returned or raised. *)
Lemma add_gate_final_log fuel gate_name qubit_list return_flag kw b b' :
  save_flag b = true →
  final (add_gate ar eng setup fuel gate_name qubit_list return_flag kw b)
    = Some b' →
  save_flag b' = true ∧
  if reaches_log ar setup (Call gate_name qubit_list return_flag kw) b
  then ∃ user_data,
         circuit_list b' =
           circuit_list b ++ [log_entry gate_name qubit_list user_data return_flag]
  else b' = b.
Proof.
  intros Hflag. destruct fuel as [|fuel]; [done|].
  unfold add_gate, reaches_log. simpl. unfold add_gate_body. rewrite bind_run.
  destruct (prepare ar setup gate_name qubit_list return_flag kw b)
    as [p b1|e b1|] eqn:Hprep; [| |done].
  - intros Hfinal.
    destruct (prepare_logged ar setup _ _ _ _ _ _ _ Hflag Hprep)
      as (tpl & user_data & _ & _ & ->).
    destruct (complete_quiet ar eng setup (builder ar eng setup fuel) gate_name
                qubit_list return_flag p (builder_steady ar eng setup fuel)
                _ b' Hfinal) as [H1 H2].
    split; [by rewrite H1|]. exists user_data. by rewrite H2.
  - intros [= <-]. apply prepare_raises in Hprep as ->. by split.
Qed.

Lemma top_level_calls_log fuel calls b n b' :
  save_flag b = true →
  top_level_calls ar eng setup fuel calls b = Some (n, b') →
  length (circuit_list b') = (length (circuit_list b) + n)%nat ∧
  save_flag b' = true.
Proof.
  revert b n. induction calls as [|[gate_name qubit_list return_flag kw] calls IH];
    intros b n Hflag; simpl.
  - intros [= <- <-]. split; [lia | done].
  - destruct (final (add_gate ar eng setup fuel gate_name qubit_list return_flag
                       kw b)) as [b1|] eqn:Hfinal; [|done]. simpl.
    destruct (top_level_calls ar eng setup fuel calls b1) as [[n1 b2]|] eqn:Hrest;
      [|done]. simpl. intros [= <- <-].
    destruct (add_gate_final_log _ _ _ _ _ _ _ Hflag Hfinal) as [Hflag1 Hlog].
    destruct (IH _ _ Hflag1 Hrest) as [Hlen Hflag2]. split; [|done].
    rewrite Hlen.
    destruct (reaches_log ar setup _ b).
    + destruct Hlog as [user_data ->]. rewrite length_app. simpl. lia.
    + by rewrite Hlog.
Qed.

End call_facts.

(** ** The log of a reversed circuit *)

Section reverse_facts.
Context (ar : Arith) (eng : Engine) (setup : Setup).

Lemma description_kwargs_description tpl gate_name qubits params tail time :
  length qubits = num_qubits tpl →
  length params = length (user_kws tpl) →
  description_kwargs tpl (description gate_name qubits params tail) time =
  if truthy time then <["time" := time]> (dict_of (zip (user_kws tpl) params))
  else dict_of (zip (user_kws tpl) params).
Proof.
  intros Hq Hp. unfold description_kwargs, description.
  replace (drop (num_qubits tpl + 1) (VStr gate_name :: qubits ++ params ++ tail))
    with (params ++ tail).
  - by rewrite zip_app_r.
  - rewrite Nat.add_1_r. simpl. by rewrite <-Hq, drop_app_length.
Qed.

(** A log entry of the arity of its gate, with a return flag that is
    absent or [True], is written again when it is replayed, if the
    replay returns. *)
Lemma replay_appends_entry fuel gate_name qubits params flag tpl b r b' :
  gate_dic setup !! gate_name = Some tpl →
  length qubits = num_qubits tpl →
  length params = length (user_kws tpl) →
  NoDup (user_kws tpl) →
  Forall (λ k, k ∉ bit_keys qubits) (user_kws tpl) →
  save_flag b = true →
  lt ar eng setup fuel (VTuple (log_entry gate_name qubits params (VBool flag))) b
    = Ok r b' →
  circuit_list b' =
    circuit_list b ++ [log_entry gate_name qubits params (VBool flag)] ∧
  save_flag b' = true.
Proof.
  intros Htpl Hq Hp Hnd Hbits Hflag Hlt.
  assert (reserved (dict_of (zip (user_kws tpl) params)) = false) as Hres.
  { pose proof Hlt as Hlt'. rewrite log_entry_description in Hlt'.
    apply lt_single_inv in Hlt'
      as (fuel' & tpl' & fields & _ & Htpl' & Hfields & Hres & _).
    assert (tpl' = tpl) as -> by congruence.
    change (VStr gate_name :: qubits ++ params ++
              (if is_False (VBool flag) then [] else [VBool flag]))
      with (description gate_name qubits params
              (if is_False (VBool flag) then [] else [VBool flag])) in Hfields, Hres.
    rewrite description_kwargs_description in Hres by done.
    destruct flag; simpl in Hfields.
    - rewrite trailing_fields_one in Hfields by done.
      injection Hfields as <-. exact Hres.
    - rewrite trailing_fields_none in Hfields by done.
      injection Hfields as <-. exact Hres. }
  destruct fuel as [|fuel]; [done|].
  rewrite (replay_entry ar eng setup fuel _ _ _ _ tpl) in Hlt by done.
  eapply add_gate_logs_caller_values in Hlt; [done.. | | done].
  by apply dict_of_zip_mapM.
Qed.

(** Descriptions of single gates, added with logging on, give the log one
    entry each. *)
Lemma add_circuit_list_appends fuel descs b r b' :
  Forall single descs →
  save_flag b = true →
  add_circuit_list ar eng setup fuel descs b = Ok r b' →
  ∃ entries,
    circuit_list b' = circuit_list b ++ entries ∧
    length entries = length descs ∧
    save_flag b' = true.
Proof.
  revert b r. induction descs as [|gate_desc l IH]; intros b r Hall Hflag; simpl.
  - intros [= <- <-]. exists []. by rewrite app_nil_r.
  - apply Forall_cons in Hall as [(gate_name & rest & ->) Hall].
    intros (temp_ag & b1 & Hlt & H)%bind_Ok_inv.
    apply bind_Ok_inv in H as (gates & b2 & Hrest & [= <- <-]).
    apply lt_single_inv in Hlt as (fuel' & tpl & fields & -> & _ & _ & _ & Hadd).
    apply add_gate_logged in Hadd as (user_data & Hlog & Hflag1); [|done].
    destruct (IH _ _ Hall Hflag1 Hrest) as (entries & Hlog' & Hlen & Hflag2).
    eexists (_ :: entries). split; [|split; [simpl; by rewrite Hlen | done]].
    by rewrite Hlog', Hlog, <-app_assoc.
Qed.

Lemma add_circuit_list_app_inv fuel l1 l2 b r b' :
  add_circuit_list ar eng setup fuel (l1 ++ l2) b = Ok r b' →
  ∃ r1 b1 r2,
    add_circuit_list ar eng setup fuel l1 b = Ok r1 b1 ∧
    add_circuit_list ar eng setup fuel l2 b1 = Ok r2 b'.
Proof.
  revert b r. induction l1 as [|d l1 IH]; intros b r; simpl.
  - intros H. by exists [], b, r.
  - intros (temp_ag & b1 & Hlt & H)%bind_Ok_inv.
    apply bind_Ok_inv in H as (gates & b2 & Hrest & [= <- <-]).
    destruct (IH _ _ Hrest) as (r1 & b3 & r2 & H1 & H2).
    eexists _, b3, r2. split; [|done].
    rewrite (bind_Ok _ _ _ _ _ Hlt), (bind_Ok _ _ _ _ _ H1). reflexivity.
Qed.

(** The description of a gate is the description of a gate when its
    angle has been negated. *)
Lemma reverse_desc_single entry entry' :
  single entry → reverse_desc setup entry = inr entry' → single entry'.
Proof.
  intros (gate_name & rest & ->). unfold reverse_desc. simpl.
  destruct (gate_dic setup !! gate_name) as [tpl|]; [|done].
  destruct (list_find _ (user_kws tpl)) as [[j x]|];
    [|intros [= <-]; by exists gate_name, rest].
  replace (num_qubits tpl + 1 + j)%nat with (S (num_qubits tpl + j)) by lia.
  simpl. destruct (rest !! _) as [v|]; [|done].
  destruct (negate v) as [|v']; [done|]. intros [= <-]. by eexists _, _.
Qed.

Lemma reverse_descs_single entries entries' :
  Forall2 (λ entry entry', reverse_desc setup entry = inr entry') entries entries' →
  Forall single entries → Forall single entries'.
Proof.
  induction 1 as [|e e' l l' He _ IH]; [done|].
  intros [? ?]%Forall_cons. constructor; [by eapply reverse_desc_single | auto].
Qed.

End reverse_facts.

(** * The claims *)

Ltac not_elem :=
  let H := fresh in
  intros H; repeat (apply elem_of_cons in H as [H|H]; [done|]);
  by apply elem_of_nil in H.

(** C1 as stated fails: the first [X] on [a] fires at 10 and lasts 20, the
    clock of [a] was 0, and the clock of [a] after the call is 20, not
    [max(0, 10 + 20)]. *)
Lemma clock_is_not_firing_time_plus_duration :
  ∃ b' op,
    add_gate exact device.eng device.setup 1 "X" [VStr "a"] (VBool false) ∅
      (init device.setup) = Ok None b' ∧
    circuit b' = [op] ∧
    op_kwargs op !! "time" = Some (VNum (Qc_of_Z 10)) ∧
    binding device.setup "X" [VStr "a"] = Some (device.duration 20) ∧
    times (init device.setup) !! "a" = Some (Qc_of_Z 0) ∧
    times b' !! "a" = Some (Qc_of_Z 20) ∧
    times b' !! "a" ≠ Some (pymax (Qc_of_Z 0) (Qc_of_Z 10 + Qc_of_Z 20)).
Proof.
  eexists _, _.
  split; [vm_compute; reflexivity|]. split; [reflexivity|].
  split; [qc_compute|]. split; [reflexivity|]. split; [qc_compute|].
  split; [qc_compute|].
  intros H. apply (f_equal (fmap (M:=option) this)) in H. vm_compute in H. discriminate.
Qed.

(** C1, amended.  After a call of [add_gate] without an explicit time
    that returns, the clock of each qubit of the call is
    [max(its clock when the handler returned, start + gate_time)], where
    [start] is the latest clock of the qubits of the call before the
    call (the firing time less the offset), [gate_time] is the nominal
    duration of the binding and the sum is the one that Python computes;
    the other clocks are as the handler left them.  The handler ran with
    the firing time among its keyword arguments, from the state [b1] that
    the call was in with its log entry written, and [mid] is the state in
    which it returned; when the handler is a primitive gate, the clocks
    when it returned are the clocks before the call. *)
Theorem clocks_after_add_gate (ar : Arith) (eng : Engine) (setup : Setup)
    fuel gate_name qubit_list return_flag kw b r b'
    args gate_time start :
  binding setup gate_name qubit_list = Some args →
  (kw ∪ args.1) !! "time" = None →
  args.2 !! "gate_time" = Some gate_time →
  max_clock qubit_list b = Ok start b →
  add_gate ar eng setup fuel gate_name qubit_list return_flag kw b = Ok r b' →
  ∃ fuel' tpl b1 mid,
    fuel = S fuel' ∧
    gate_dic setup !! gate_name = Some tpl ∧
    prepare ar setup gate_name qubit_list return_flag kw b =
      Ok (scheduled_kwargs ar qubit_list kw args gate_time start,
          Some start, gate_time) b1 ∧
    times b1 = times b ∧ circuit b1 = circuit b ∧
    dispatch eng (builder ar eng setup fuel') (function tpl)
      (scheduled_kwargs ar qubit_list kw args gate_time start)
      (set_save_flag false b1) = Ok tt mid ∧
    (is_Some (primitive (function tpl)) → times mid = times b) ∧
    (∀ q, VStr q ∈ qubit_list →
      ∃ c, times mid !! q = Some c ∧
           times b' !! q = Some (pymax c (py_add ar start gate_time))) ∧
    (∀ q, VStr q ∉ qubit_list → times b' !! q = times mid !! q).
Proof.
  intros Hargs Hfree Htime Hmax Hadd.
  destruct (add_gate_scheduled ar eng setup _ _ _ _ _ _ _ _ _ _ _
              Hargs Hfree Htime Hmax Hadd)
    as (fuel' & tpl & b1 & mid & -> & Htpl & Hprep & Htimes & Hcirc & Hdisp & _
        & Hin & Hout).
  exists fuel', tpl, b1, mid.
  split; [done|]. split; [done|]. split; [done|]. split; [done|].
  split; [done|]. split; [done|]. split; [|done].
  intros [g Hg]. rewrite (dispatch_primitive eng _ _ g) in Hdisp by done.
  by apply engine_add_Ok in Hdisp as ->.
Qed.

Lemma clocks_after_add_gate_witness :
  ∃ b',
    add_gate exact device.eng device.setup 1 "X" [VStr "a"] (VBool false) ∅
      (init device.setup) = Ok None b' ∧
    ∃ fuel' tpl b1 mid,
      1%nat = S fuel' ∧
      gate_dic device.setup !! "X" = Some tpl ∧
      prepare exact device.setup "X" [VStr "a"] (VBool false) ∅ (init device.setup) =
        Ok (scheduled_kwargs exact [VStr "a"] ∅ (device.duration 20) (Qc_of_Z 20)
              (Q2Qc 0),
            Some (Q2Qc 0), Qc_of_Z 20) b1 ∧
      times b1 = times (init device.setup) ∧
      circuit b1 = circuit (init device.setup) ∧
      dispatch device.eng (builder exact device.eng device.setup fuel') (function tpl)
        (scheduled_kwargs exact [VStr "a"] ∅ (device.duration 20) (Qc_of_Z 20)
           (Q2Qc 0))
        (set_save_flag false b1) = Ok tt mid ∧
      (is_Some (primitive (function tpl)) → times mid = times (init device.setup)) ∧
      (∀ q, VStr q ∈ [VStr "a"] →
        ∃ c, times mid !! q = Some c ∧
             times b' !! q = Some (pymax c (py_add exact (Q2Qc 0) (Qc_of_Z 20)))) ∧
      (∀ q, VStr q ∉ [VStr "a"] → times b' !! q = times mid !! q).
Proof.
  eexists. split; [vm_compute; reflexivity|].
  eapply (clocks_after_add_gate exact device.eng device.setup 1 "X" [VStr "a"]
            (VBool false) ∅ (init device.setup) None);
    [reflexivity | reflexivity | reflexivity | vm_compute; reflexivity
    | vm_compute; reflexivity].
Defined.

(** C2.  A call of [add_gate] without an explicit time fires at the
    latest clock of its qubits ([start], the clock of one of them, which
    none of them exceeds) plus the execution offset of the binding if it
    has one, plus half the nominal duration if not, the sum and the half
    being those that Python computes.  Every such call that gets as far
    as its handler (the gate is bound to the qubits and has a template,
    and the log entry can be written) is, from the state [b1] with the
    log entry written, the dispatch of the handler with this firing time
    as [time], followed by the clocks and the gate handed back: so the
    call returns or raises as these do, and a composite gate is expanded
    at this time.  When the handler is a primitive gate that the engine
    accepts, the call returns and the operation handed to the engine has
    this [time].  On the device of the examples two calls
    [add_gate('X', ['a'])] fire at 10 and at 30, and the clock of [a] is
    20 after the first and 40 after the second. *)
Theorem firing_time_of_add_gate (ar : Arith) (eng : Engine) (setup : Setup) :
  (∀ fuel gate_name qubit_list return_flag kw b args gate_time start tpl,
      binding setup gate_name qubit_list = Some args →
      (kw ∪ args.1) !! "time" = None →
      args.2 !! "gate_time" = Some gate_time →
      max_clock qubit_list b = Ok start b →
      gate_dic setup !! gate_name = Some tpl →
      (save_flag b = true →
       is_Some (mapM (λ k, scheduled_kwargs ar qubit_list kw args gate_time start !! k)
                  (user_kws tpl))) →
      (∃ q, VStr q ∈ qubit_list ∧ times b !! q = Some start) ∧
      (∀ q c, VStr q ∈ qubit_list → times b !! q = Some c → (c ≤ start)%Qc) ∧
      (∀ exec_time, args.2 !! "exec_time" = Some exec_time →
         firing_time ar args.2 gate_time start = py_add ar start exec_time) ∧
      (args.2 !! "exec_time" = None →
         firing_time ar args.2 gate_time start =
         py_add ar start (py_half ar gate_time)) ∧
      scheduled_kwargs ar qubit_list kw args gate_time start !! "time" =
        Some (VNum (firing_time ar args.2 gate_time start)) ∧
      ∃ b1,
        prepare ar setup gate_name qubit_list return_flag kw b =
          Ok (scheduled_kwargs ar qubit_list kw args gate_time start,
              Some start, gate_time) b1 ∧
        times b1 = times b ∧ circuit b1 = circuit b ∧
        add_gate ar eng setup (S fuel) gate_name qubit_list return_flag kw b =
          (guarded (dispatch eng (builder ar eng setup fuel) (function tpl)
                      (scheduled_kwargs ar qubit_list kw args gate_time start)) ;;
           advance_clocks qubit_list (py_add ar start gate_time) ;;
           returned_gate return_flag) b1) ∧
  (∀ fuel gate_name qubit_list kw b args gate_time start tpl g,
      binding setup gate_name qubit_list = Some args →
      (kw ∪ args.1) !! "time" = None →
      args.2 !! "gate_time" = Some gate_time →
      max_clock qubit_list b = Ok start b →
      gate_dic setup !! gate_name = Some tpl →
      primitive (function tpl) = Some g →
      (save_flag b = true →
       is_Some (mapM (λ k, scheduled_kwargs ar qubit_list kw args gate_time start !! k)
                  (user_kws tpl))) →
      eng_rejects eng g (scheduled_kwargs ar qubit_list kw args gate_time start)
        (circuit b) = None →
      ∃ b' kw',
        add_gate ar eng setup (S fuel) gate_name qubit_list (VBool false) kw b
          = Ok None b' ∧
        circuit b' = circuit b ++ [Operation g kw'] ∧
        kw' !! "time" = Some (VNum (firing_time ar args.2 gate_time start))) ∧
  (∃ b1 b2 op1 op2,
      add_gate exact device.eng device.setup 1 "X" [VStr "a"] (VBool false) ∅
        (init device.setup) = Ok None b1 ∧
      circuit b1 = [op1] ∧
      op_kwargs op1 !! "time" = Some (VNum (Qc_of_Z 10)) ∧
      times b1 !! "a" = Some (Qc_of_Z 20) ∧
      add_gate exact device.eng device.setup 1 "X" [VStr "a"] (VBool false) ∅ b1
        = Ok None b2 ∧
      circuit b2 = [op1; op2] ∧
      op_kwargs op2 !! "time" = Some (VNum (Qc_of_Z 30)) ∧
      times b2 !! "a" = Some (Qc_of_Z 40)).
Proof.
  split; [|split].
  - intros fuel gate_name qubit_list return_flag kw b args gate_time start tpl
      Hargs Hfree Htime Hmax Htpl Hdata.
    destruct (max_clock_spec _ _ _ _ Hmax) as [Hattained Hbound].
    split; [done|]. split.
    { intros q c Hq Hc. destruct (Hbound _ Hq) as (q' & c' & [= <-] & Hc' & Hle).
      congruence. }
    split; [intros exec_time Hexec; unfold firing_time; by rewrite Hexec|].
    split; [intros Hexec; unfold firing_time; by rewrite Hexec|].
    split; [apply scheduled_kwargs_time|].
    by apply add_gate_dispatches.
  - intros fuel gate_name qubit_list kw b args gate_time start tpl g
      Hargs Hfree Htime Hmax Htpl Hprim Hdata Hacc.
    destruct (add_gate_primitive ar eng setup fuel _ _ _ _ _ _ _ _ _
                Hargs Hfree Htime Hmax Htpl Hprim Hdata Hacc)
      as (b' & Hadd & Hcirc & _).
    exists b', (scheduled_kwargs ar qubit_list kw args gate_time start).
    split; [done|]. split; [done|]. apply scheduled_kwargs_time.
  - eexists _, _, _, _.
    split; [vm_compute; reflexivity|]. split; [reflexivity|].
    split; [qc_compute|]. split; [qc_compute|].
    split; [vm_compute; reflexivity|]. split; [reflexivity|].
    split; qc_compute.
Qed.

Lemma firing_time_of_add_gate_witness :
  ∃ b' kw',
    add_gate exact device.eng device.setup 1 "X" [VStr "a"] (VBool false) ∅
      (init device.setup) = Ok None b' ∧
    circuit b' = circuit (init device.setup) ++ [Operation (GName "X") kw'] ∧
    kw' !! "time" =
      Some (VNum (firing_time exact (device.duration 20).2 (Qc_of_Z 20) (Q2Qc 0))).
Proof.
  apply (proj1 (proj2 (firing_time_of_add_gate exact device.eng device.setup))
           0%nat "X" [VStr "a"] ∅ (init device.setup) (device.duration 20)
           (Qc_of_Z 20) (Q2Qc 0) (MkTemplate 1 [] (HName "X")) (GName "X"));
    [reflexivity | reflexivity | reflexivity | vm_compute; reflexivity
    | reflexivity | reflexivity | intros _; by eexists | reflexivity].
Defined.

(** C3 as stated fails: [CNOT] is a composite gate, bound on the qubits
    [a], [b] in this order only; the top-level call
    [add_gate('CNOT', ['b', 'a'])] on a new builder raises [KeyError] at
    the lookup of the binding (line 300) and the log is as empty as it
    was, so that after one top-level call of a composite gate the log is
    not longer by one. *)
Lemma rejected_composite_call_is_not_logged :
  (∃ f, gate_dic device.setup !! "CNOT" = Some (MkTemplate 2 [] (HFunc f))) ∧
  save_flag (init device.setup) = true ∧
  add_gate exact device.eng device.setup 3 "CNOT" [VStr "b"; VStr "a"]
    (VBool false) ∅ (init device.setup) = Raise KeyError (init device.setup) ∧
  length (circuit_list (init device.setup)) = 0%nat.
Proof.
  split; [by eexists|]. split; [reflexivity|]. split; [|reflexivity].
  vm_compute; reflexivity.
Qed.

(** C3, amended.  A top-level call of a gate whose handler is a
    composite gate (a call made while logging is on) that gets as far as
    the log (see [reaches_log]) leaves the log longer by exactly one
    entry, its own, whether it then returns or raises and whatever calls
    the expansion made on the builder; a call that raises before it gets
    there leaves the builder as it was; logging is on afterwards in either
    case.  So after top-level calls made one after the other, by a caller
    that catches what they raise, the log has grown by the number of the
    calls that got as far as the log. *)
Theorem top_level_call_logged_once (ar : Arith) (eng : Engine) (setup : Setup) :
  (∀ fuel gate_name qubit_list return_flag kw tpl f b b',
      gate_dic setup !! gate_name = Some tpl →
      function tpl = HFunc f →
      save_flag b = true →
      final (add_gate ar eng setup fuel gate_name qubit_list return_flag kw b)
        = Some b' →
      save_flag b' = true ∧
      if reaches_log ar setup (Call gate_name qubit_list return_flag kw) b
      then length (circuit_list b') = S (length (circuit_list b)) ∧
           ∃ user_data,
             circuit_list b' =
               circuit_list b ++
                 [log_entry gate_name qubit_list user_data return_flag]
      else b' = b) ∧
  (∀ fuel calls b n b',
      save_flag b = true →
      top_level_calls ar eng setup fuel calls b = Some (n, b') →
      length (circuit_list b') = (length (circuit_list b) + n)%nat ∧
      save_flag b' = true).
Proof.
  split.
  - intros fuel gate_name qubit_list return_flag kw tpl f b b' _ _ Hflag Hfinal.
    destruct (add_gate_final_log ar eng setup _ _ _ _ _ _ _ Hflag Hfinal)
      as [Hflag' Hlog].
    split; [done|].
    destruct (reaches_log ar setup _ b); [|done].
    destruct Hlog as [user_data Hlog]. split; [|by exists user_data].
    rewrite Hlog, length_app. simpl. lia.
  - intros fuel calls b n b'. apply top_level_calls_log.
Qed.

Lemma top_level_call_logged_once_witness :
  ∃ b',
    top_level_calls exact device.eng device.setup 3
      [Call "CNOT" [VStr "b"; VStr "a"] device.no_flag ∅;
       Call "CNOT" [VStr "a"; VStr "b"] device.no_flag ∅;
       Call "Fail" [VStr "a"] device.no_flag ∅]
      (init device.setup) = Some (2%nat, b') ∧
    length (circuit b') = 3%nat ∧
    length (circuit_list b') = (length (circuit_list (init device.setup)) + 2)%nat ∧
    save_flag b' = true.
Proof.
  eexists.
  match goal with
  | |- ?run ∧ _ => assert run as Hrun by (vm_compute; reflexivity)
  end.
  split; [exact Hrun|]. split; [reflexivity|].
  exact (proj2 (top_level_call_logged_once exact device.eng device.setup)
           3%nat _ (init device.setup) 2%nat _ eq_refl Hrun).
Defined.

(** C4 at a time of 0.  [builder < ('X', 'a', 0)] on a new builder does
    not fire at 0: the gate fires at 10, where the clock of [a] puts it,
    and the clock of [a] is advanced to 20.  With the time 5 in the same
    place the gate fires at 5 and the clock of [a] stays at 0; and
    [add_gate('X', ['a'], time=0)] does fire at 0 and leaves the clock. *)
Lemma zero_time_is_not_an_override :
  (∃ b' op,
      lt exact device.eng device.setup 2
        (VTuple (description "X" [VStr "a"] [] [VNum (Qc_of_Z 0)]))
        (init device.setup) = Ok None b' ∧
      circuit b' = [op] ∧
      op_kwargs op !! "time" = Some (VNum (Qc_of_Z 10)) ∧
      times b' !! "a" = Some (Qc_of_Z 20)) ∧
  (∃ b' op,
      lt exact device.eng device.setup 2
        (VTuple (description "X" [VStr "a"] [] [VNum (Qc_of_Z 5)]))
        (init device.setup) = Ok None b' ∧
      circuit b' = [op] ∧
      op_kwargs op !! "time" = Some (VNum (Qc_of_Z 5)) ∧
      times b' !! "a" = Some (Qc_of_Z 0)) ∧
  (∃ b' op,
      add_gate exact device.eng device.setup 1 "X" [VStr "a"] (VBool false)
        {["time" := VNum (Qc_of_Z 0)]} (init device.setup) = Ok None b' ∧
      circuit b' = [op] ∧
      op_kwargs op !! "time" = Some (VNum (Qc_of_Z 0)) ∧
      times b' !! "a" = Some (Qc_of_Z 0)).
Proof.
  split; [|split]; eexists _, _;
    (split; [vm_compute; reflexivity|]); (split; [reflexivity|]);
    split; qc_compute.
Qed.

(** C5.  What the code does with a description that has two trailing
    fields, a time and a boolean return flag: [builder < description]
    raises [AssertionError] (the assertion compares the flag with the
    type [bool]) and nothing is added. *)
Theorem time_and_flag_description_rejected (ar : Arith) (eng : Engine) (setup : Setup)
    fuel gate_name qubits params
    time flag tpl b :
  gate_dic setup !! gate_name = Some tpl →
  length qubits = num_qubits tpl →
  length params = length (user_kws tpl) →
  lt ar eng setup (S fuel)
    (VTuple (description gate_name qubits params [time; VBool flag])) b
    = Raise AssertionError b.
Proof.
  intros Htpl Hq Hp. apply lt_description_raises with tpl; [done|].
  by apply trailing_fields_two.
Qed.

Lemma time_and_flag_description_rejected_witness :
  lt exact device.eng device.setup 2
    (VTuple (description "RX" [VStr "a"] [VNum (Q2Qc (1 # 2))]
               [VNum (Qc_of_Z 15); VBool true]))
    (init device.setup)
  = Raise AssertionError (init device.setup).
Proof.
  apply (time_and_flag_description_rejected exact device.eng device.setup 1 "RX"
           [VStr "a"] [VNum (Q2Qc (1 # 2))] (VNum (Qc_of_Z 15)) true
           (MkTemplate 1 ["angle"] (HName "RX")) (init device.setup));
    reflexivity.
Defined.

(** C6.  In [add_gates_simultaneous], before any gate of the group is
    dispatched, the clock of every qubit referenced by a description of
    the group is set to one value, the latest of the clocks that the
    referenced qubits had before; nothing else has changed by then. *)
Theorem simultaneous_group_starts_together (ar : Arith) (eng : Engine) (setup : Setup)
    gate_descriptions b b1 :
  simultaneous_start setup gate_descriptions b = Ok tt b1 →
  ∃ start,
    (∃ q, referenced setup gate_descriptions q ∧ times b !! q = Some start) ∧
    (∀ q, referenced setup gate_descriptions q →
       ∃ t, times b !! q = Some t ∧ (t ≤ start)%Qc ∧
            times b1 !! q = Some start) ∧
    (∀ q, ¬ referenced setup gate_descriptions q →
       times b1 !! q = times b !! q) ∧
    circuit b1 = circuit b ∧ circuit_list b1 = circuit_list b ∧
    save_flag b1 = save_flag b ∧
    ∀ fuel,
      add_gates_simultaneous ar eng setup fuel gate_descriptions b =
      for_each (λ gate_desc, lt ar eng setup fuel gate_desc ;; mret tt)
        gate_descriptions b1.
Proof.
  intros Hstart. pose proof Hstart as Hrun. unfold simultaneous_start in Hstart.
  apply bind_Ok_inv in Hstart as (ts & b0 & Hts & H).
  apply collect_Ok_pure in Hts as [-> Hts];
    [|by intros d b2 cl b2' [-> _]%description_clocks_Ok].
  apply bind_Ok_inv in H as (start & b0 & [Hmax ->]%lift_Ok_inv & Hset).
  apply py_max_spec in Hmax as [Hin Hmax].
  destruct (group_clocks setup _ _ _ Hts) as [Hread Href].
  apply set_group_clocks_Ok in Hset as (Hcirc & [Hflag Hlog] & Htimes).
  exists start. split; [by apply Hread|]. split; [|split].
  - intros q Hq. destruct (Href q Hq) as (t & Ht & Htin).
    exists t. split; [done|]. split; [by apply Hmax|].
    by destruct (Htimes q) as [[_ ?]|[? _]].
  - intros q Hq. by destruct (Htimes q) as [[? _]|[_ ?]].
  - split; [done|]. split; [done|]. split; [done|]. intros fuel.
    unfold add_gates_simultaneous, add_gates_simultaneous_body.
    by rewrite (bind_Ok _ _ _ _ _ Hrun).
Qed.

Lemma simultaneous_group_starts_together_witness :
  ∃ b1,
    simultaneous_start device.setup
      [VTuple [VStr "X"; VStr "a"]; VTuple [VStr "RY"; VStr "b"; VNum 1]]
      (set_times <["a" := Qc_of_Z 20]> (init device.setup)) = Ok tt b1 ∧
    times b1 !! "a" = Some (Qc_of_Z 20) ∧
    times b1 !! "b" = Some (Qc_of_Z 20) ∧
    ∃ start,
      (∃ q, referenced device.setup
              [VTuple [VStr "X"; VStr "a"]; VTuple [VStr "RY"; VStr "b"; VNum 1]] q ∧
            times (set_times <["a" := Qc_of_Z 20]> (init device.setup)) !! q
              = Some start) ∧
      (∀ q, referenced device.setup
              [VTuple [VStr "X"; VStr "a"]; VTuple [VStr "RY"; VStr "b"; VNum 1]] q →
         ∃ t, times (set_times <["a" := Qc_of_Z 20]> (init device.setup)) !! q
                = Some t ∧
              (t ≤ start)%Qc ∧ times b1 !! q = Some start) ∧
      (∀ q, ¬ referenced device.setup
              [VTuple [VStr "X"; VStr "a"]; VTuple [VStr "RY"; VStr "b"; VNum 1]] q →
         times b1 !! q =
         times (set_times <["a" := Qc_of_Z 20]> (init device.setup)) !! q) ∧
      circuit b1 = circuit (set_times <["a" := Qc_of_Z 20]> (init device.setup)) ∧
      circuit_list b1 =
        circuit_list (set_times <["a" := Qc_of_Z 20]> (init device.setup)) ∧
      save_flag b1 = save_flag (set_times <["a" := Qc_of_Z 20]> (init device.setup)) ∧
      ∀ fuel,
        add_gates_simultaneous exact device.eng device.setup fuel
          [VTuple [VStr "X"; VStr "a"]; VTuple [VStr "RY"; VStr "b"; VNum 1]]
          (set_times <["a" := Qc_of_Z 20]> (init device.setup)) =
        for_each (λ gate_desc, lt exact device.eng device.setup fuel gate_desc ;; mret tt)
          [VTuple [VStr "X"; VStr "a"]; VTuple [VStr "RY"; VStr "b"; VNum 1]] b1.
Proof.
  eexists. split; [vm_compute; reflexivity|].
  split; [qc_compute|]. split; [qc_compute|].
  apply (simultaneous_group_starts_together exact device.eng device.setup).
  vm_compute; reflexivity.
Defined.

(** C7 as stated fails: [RXfix] is bound on [a] with the fixed parameter
    [angle]; the caller of [add_gate('RXfix', ['a'])] supplies no
    parameter, and the log entry holds the angle of the binding table, 1
    with one table and 2 with the other. *)
Lemma logged_value_comes_from_the_binding :
  ∃ b1 b2,
    add_gate exact device.eng device.setup 1 "RXfix" [VStr "a"] (VBool false) ∅
      (init device.setup) = Ok None b1 ∧
    circuit_list b1 = [[VStr "RXfix"; VStr "a"; VNum 1]] ∧
    add_gate exact device.eng device.setup' 1 "RXfix" [VStr "a"] (VBool false) ∅
      (init device.setup') = Ok None b2 ∧
    circuit_list b2 = [[VStr "RXfix"; VStr "a"; VNum 2]].
Proof.
  eexists _, _.
  split; [vm_compute; reflexivity|]. split; [vm_compute; reflexivity|].
  split; [vm_compute; reflexivity|]. vm_compute; reflexivity.
Qed.

(** C7, amended.  When the caller of a logged [add_gate] call supplies
    every user parameter of the template (as every call made through a
    gate description does), and none of them has the name of a qubit
    keyword, the values stored in the log entry are the values the
    caller supplied, whatever the binding table holds; and such an entry
    with a boolean return flag, replayed with [builder < entry] on a
    builder with any binding table, is the call of [add_gate] with the same gate
    name, qubits and return flag and with the caller's values of the
    user parameters as its keyword arguments. *)
Theorem log_records_caller_values (ar : Arith) (eng : Engine) (setup : Setup) :
  (∀ fuel gate_name qubit_list return_flag kw b r b' tpl user_data,
      save_flag b = true →
      gate_dic setup !! gate_name = Some tpl →
      mapM (λ k, kw !! k) (user_kws tpl) = Some user_data →
      Forall (λ k, k ∉ bit_keys qubit_list) (user_kws tpl) →
      add_gate ar eng setup fuel gate_name qubit_list return_flag kw b = Ok r b' →
      circuit_list b' =
        circuit_list b ++ [log_entry gate_name qubit_list user_data return_flag]) ∧
  (∀ (eng2 : Engine) (setup2 : Setup) fuel gate_name qubit_list flag
      (kw : kwargs) b tpl user_data,
      gate_dic setup2 !! gate_name = Some tpl →
      mapM (λ k, kw !! k) (user_kws tpl) = Some user_data →
      length qubit_list = num_qubits tpl →
      reserved (dict_of (zip (user_kws tpl) user_data)) = false →
      (∀ k, dict_of (zip (user_kws tpl) user_data) !! k =
            if decide (k ∈ user_kws tpl) then kw !! k else None) ∧
      lt ar eng2 setup2 (S fuel)
        (VTuple (log_entry gate_name qubit_list user_data (VBool flag))) b =
      add_gate ar eng2 setup2 fuel gate_name qubit_list (VBool flag)
        (dict_of (zip (user_kws tpl) user_data)) b).
Proof.
  split.
  - intros fuel gate_name qubit_list return_flag kw b r b' tpl user_data
      Hflag Htpl Hdata Hbits Hadd.
    by destruct (add_gate_logs_caller_values ar eng setup _ _ _ _ _ _ _ _ _ _
                   Hflag Htpl Hdata Hbits Hadd).
  - intros eng2 setup2 fuel gate_name qubit_list flag kw b tpl user_data
      Htpl Hdata Hq Hres.
    split; [intros k; by apply dict_of_zip_lookup|].
    apply replay_entry; [done | done | | done].
    apply mapM_Some_1, Forall2_length in Hdata. done.
Qed.

Lemma log_records_caller_values_witness :
  (∃ r b',
      add_gate exact device.eng device.setup 1 "RX" [VStr "a"] (VBool false)
        {["angle" := VNum (Q2Qc (1 # 2))]} (init device.setup) = Ok r b' ∧
      circuit_list b' =
        circuit_list (init device.setup) ++
          [log_entry "RX" [VStr "a"] [VNum (Q2Qc (1 # 2))] (VBool false)]) ∧
  ((∀ k, dict_of (zip ["angle"] [VNum (Q2Qc (1 # 2))]) !! k =
         if decide (k ∈ ["angle"])
         then ({["angle" := VNum (Q2Qc (1 # 2))]} : kwargs) !! k else None) ∧
   lt exact device.eng device.setup' 2
     (VTuple (log_entry "RX" [VStr "a"] [VNum (Q2Qc (1 # 2))] (VBool false)))
     (init device.setup') =
   add_gate exact device.eng device.setup' 1 "RX" [VStr "a"] (VBool false)
     (dict_of (zip ["angle"] [VNum (Q2Qc (1 # 2))])) (init device.setup')).
Proof.
  split.
  - eexists _, _. split; [vm_compute; reflexivity|].
    eapply (proj1 (log_records_caller_values exact device.eng device.setup)
              1%nat "RX" [VStr "a"] (VBool false) {["angle" := VNum (Q2Qc (1 # 2))]}
              (init device.setup) _ _ (MkTemplate 1 ["angle"] (HName "RX")));
      [reflexivity | reflexivity | reflexivity | | vm_compute; reflexivity].
    repeat constructor. not_elem.
  - apply (proj2 (log_records_caller_values exact device.eng device.setup)
             device.eng device.setup' 1%nat "RX" [VStr "a"] false
             {["angle" := VNum (Q2Qc (1 # 2))]} (init device.setup')
             (MkTemplate 1 ["angle"] (HName "RX")) [VNum (Q2Qc (1 # 2))]);
      reflexivity.
Defined.

(** C8 as stated fails: [RX] on [a] is added with the return flag 2 (the
    gate before the last is wanted back), so that its log entry ends with
    2; in the log of the reversed circuit the angle of the entry is
    negated and its last field is gone, the 2 having been read as an
    explicit time. *)
Lemma reversed_entry_loses_its_flag :
  ∃ r b b_rev,
    (add_gate exact device.eng device.setup 1 "X" [VStr "a"] (VBool false) ∅ ≫= λ _,
     add_gate exact device.eng device.setup 1 "RX" [VStr "a"] (VNum 2)
       {["angle" := VNum (Q2Qc (1 # 2))]})
      (init device.setup) = Ok r b ∧
    circuit_list b =
      [[VStr "X"; VStr "a"]; [VStr "RX"; VStr "a"; VNum (Q2Qc (1 # 2)); VNum 2]] ∧
    make_reverse_circuit exact device.eng device.setup 2 true b = Ok b_rev b ∧
    circuit_list b_rev =
      [[VStr "RX"; VStr "a"; VNum (- Q2Qc (1 # 2))]; [VStr "X"; VStr "a"]].
Proof.
  eexists _, _, _. split; [vm_compute; reflexivity|].
  split; [vm_compute; reflexivity|]. split; vm_compute; reflexivity.
Qed.

(** C8, amended.  Let every entry of the log begin with the name of a
    gate, as every entry that [add_gate] writes does, and let
    [make_reverse_circuit] return.  Then the log of the new builder is as
    long as the log, and an entry of a gate whose template declares
    [angle], with the number [θ] for it, has at the mirrored position of
    the new log the same entry with [- θ] for the angle and all its other
    fields as they were, provided that this entry has the qubits and the
    parameters of the template and a return flag that is absent or
    [True], and that the names of the parameters of the template are
    distinct and none of them is the name of a qubit keyword.  The
    builder itself is as it was.  Nothing is asked of the other
    entries. *)
Theorem reversed_angle_is_negated (ar : Arith) (eng : Engine) (setup : Setup)
    fuel do_finalize b b_rev b' i
    gate_name qubits params flag tpl j θ :
  Forall single (circuit_list b) →
  make_reverse_circuit ar eng setup fuel do_finalize b = Ok b_rev b' →
  circuit_list b !! i = Some (log_entry gate_name qubits params (VBool flag)) →
  gate_dic setup !! gate_name = Some tpl →
  length qubits = num_qubits tpl →
  length params = length (user_kws tpl) →
  NoDup (user_kws tpl) →
  Forall (λ k, k ∉ bit_keys qubits) (user_kws tpl) →
  list_find (λ kw, kw = "angle") (user_kws tpl) = Some (j, "angle") →
  params !! j = Some (VNum θ) →
  b' = b ∧
  length (circuit_list b_rev) = length (circuit_list b) ∧
  circuit_list b_rev !! (length (circuit_list b) - S i)%nat =
    Some (log_entry gate_name qubits (<[j := VNum (- θ)]> params) (VBool flag)).
Proof.
  intros Hall Hrev Hi Htpl Hq Hp Hnd Hbits Hfind Hθ.
  unfold make_reverse_circuit in Hrev.
  destruct (reverse_descs setup (reverse (circuit_list b)))
    as [|entries] eqn:Hentries; [done|].
  apply reverse_descs_Forall2 in Hentries.
  match type of Hrev with
  | match ?run with _ => _ end = _ => destruct run as [[] b2| |] eqn:Hrun; [|done..]
  end.
  injection Hrev as -> <-. split; [done|].
  apply bind_Ok_inv in Hrun as (gates & b1 & Hreplay & Hfin).
  assert (circuit_list b_rev = circuit_list b1) as ->.
  { destruct do_finalize.
    - by destruct (finalize_quiet ar eng false 0%Qc b1 b_rev ltac:(by rewrite Hfin)).
    - by injection Hfin as <-. }
  assert (Forall single entries) as Hsingle.
  { eapply reverse_descs_single; [exact Hentries | by apply Forall_reverse]. }
  apply Forall2_length in Hentries as Hlen. rewrite length_reverse in Hlen.
  apply lookup_lt_Some in Hi as Hlt.
  set (k := (length (circuit_list b) - S i)%nat).
  assert (reverse (circuit_list b) !! k
          = Some (log_entry gate_name qubits params (VBool flag))) as Hrevi.
  { unfold k. rewrite reverse_lookup by lia. rewrite <-Hi. f_equal. lia. }
  destruct (Forall2_lookup_l _ _ _ _ _ Hentries Hrevi) as (entry' & Hentry' & Hdesc).
  rewrite (reverse_desc_angle setup _ _ _ _ _ _ _ _ (VNum (- θ)) Htpl Hq Hfind Hθ)
    in Hdesc by done.
  injection Hdesc as <-.
  apply lookup_lt_Some in Hentry' as Hk.
  rewrite <-(take_drop_middle _ _ _ Hentry') in Hreplay, Hsingle.
  apply Forall_app in Hsingle as [Hsingle1 [_ Hsingle2]%Forall_cons].
  apply add_circuit_list_app_inv in Hreplay as (r1 & b3 & r2 & Hrun1 & Hrun2).
  apply add_circuit_list_appends in Hrun1 as (e1 & Hlog1 & Hlen1 & Hflag1);
    [|done..].
  simpl in Hrun2. apply bind_Ok_inv in Hrun2 as (temp_ag & b4 & Hlt4 & Hrun2).
  apply bind_Ok_inv in Hrun2 as (r3 & b5 & Hrun2 & [= _ <-]).
  apply replay_appends_entry with (tpl := tpl) in Hlt4 as [Hlog4 Hflag4];
    [|done | done | by rewrite length_insert | done..].
  apply add_circuit_list_appends in Hrun2 as (e2 & Hlog2 & Hlen2 & _); [|done..].
  rewrite Hlog2, Hlog4, Hlog1. simpl.
  rewrite length_take_le in Hlen1 by lia. rewrite length_drop in Hlen2.
  split.
  - rewrite !length_app. simpl. lia.
  - rewrite <-app_assoc. rewrite lookup_app_r by lia.
    by rewrite Hlen1, Nat.sub_diag.
Qed.

Lemma reversed_angle_is_negated_witness :
  ∃ r b b_rev,
    (add_gate exact device.eng device.setup 1 "X" [VStr "a"] (VNum 1) ∅ ≫= λ _,
     lt exact device.eng device.setup 2
       (VTuple [VStr "RX"; VStr "a"; VNum (Q2Qc (1 # 2))]))
      (init device.setup) = Ok r b ∧
    circuit_list b =
      [[VStr "X"; VStr "a"; VNum 1]; [VStr "RX"; VStr "a"; VNum (Q2Qc (1 # 2))]] ∧
    make_reverse_circuit exact device.eng device.setup 2 true b = Ok b_rev b ∧
    (b = b ∧
     length (circuit_list b_rev) = length (circuit_list b) ∧
     circuit_list b_rev !! (length (circuit_list b) - 2)%nat =
       Some (log_entry "RX" [VStr "a"] (<[0%nat := VNum (- Q2Qc (1 # 2))]>
                                          [VNum (Q2Qc (1 # 2))]) (VBool false))).
Proof.
  eexists _, _, _. split; [vm_compute; reflexivity|]. split; [reflexivity|].
  split; [vm_compute; reflexivity|].
  eapply (reversed_angle_is_negated exact device.eng device.setup 2 true _ _ _ 1%nat
            "RX" [VStr "a"] [VNum (Q2Qc (1 # 2))] false
            (MkTemplate 1 ["angle"] (HName "RX")) 0%nat (Q2Qc (1 # 2)));
    [ | vm_compute; reflexivity | reflexivity | reflexivity | reflexivity
      | reflexivity | | | reflexivity | reflexivity].
  - repeat constructor; by eexists _, _.
  - repeat constructor. not_elem.
  - repeat constructor. not_elem.
Defined.

(** C9.  When the dispatch of the handler raises, [add_gate] raises the
    same exception, in a state whose [save_flag] is what it was before
    the call; so after a failed top-level call a later top-level call
    that returns has appended its entry to the log. *)
Theorem failed_call_restores_flag (ar : Arith) (eng : Engine) (setup : Setup)
    fuel gate_name qubit_list return_flag kw
    b p b1 tpl e b2 :
  prepare ar setup gate_name qubit_list return_flag kw b = Ok p b1 →
  gate_dic setup !! gate_name = Some tpl →
  dispatch eng (builder ar eng setup fuel) (function tpl) p.1.1
    (set_save_flag false b1) = Raise e b2 →
  ∃ b3,
    add_gate ar eng setup (S fuel) gate_name qubit_list return_flag kw b = Raise e b3 ∧
    save_flag b3 = save_flag b ∧
    (save_flag b = true →
     ∀ fuel' gate_name' qubit_list' return_flag' kw' r b4,
       add_gate ar eng setup fuel' gate_name' qubit_list' return_flag' kw' b3 = Ok r b4 →
       ∃ user_data,
         circuit_list b4 = circuit_list b3 ++
           [log_entry gate_name' qubit_list' user_data return_flag']).
Proof.
  intros Hprep Htpl Hdisp.
  destruct (failed_dispatch ar eng setup _ _ _ _ _ _ _ _ _ _ _ Hprep Htpl Hdisp)
    as (Hadd & _ & Hflag).
  eexists. split; [exact Hadd|]. split; [done|].
  intros Hon fuel' gate_name' qubit_list' return_flag' kw' r b4 Hlater.
  apply add_gate_logged in Hlater as (user_data & Hlog & _); [eauto|].
  simpl. congruence.
Qed.

Lemma failed_call_restores_flag_witness :
  ∃ b3,
    add_gate exact device.eng device.setup 1 "Fail" [VStr "a"] device.no_flag ∅
      (init device.setup) = Raise (GateError "failed") b3 ∧
    save_flag b3 = save_flag (init device.setup) ∧
    (save_flag (init device.setup) = true →
     ∀ fuel' gate_name' qubit_list' return_flag' kw' r b4,
       add_gate exact device.eng device.setup fuel' gate_name' qubit_list' return_flag' kw' b3
         = Ok r b4 →
       ∃ user_data,
         circuit_list b4 = circuit_list b3 ++
           [log_entry gate_name' qubit_list' user_data return_flag']).
Proof.
  eapply (failed_call_restores_flag exact device.eng device.setup 0 "Fail" [VStr "a"]
            device.no_flag ∅ (init device.setup));
    [vm_compute; reflexivity | reflexivity | vm_compute; reflexivity].
Defined.

(** C10.  When the dispatch of the handler of a top-level call raises,
    the description appended to the log before the dispatch stays: the
    failed call leaves the log one entry longer than it was. *)
Theorem failed_call_stays_logged (ar : Arith) (eng : Engine) (setup : Setup)
    fuel gate_name qubit_list return_flag kw
    b p b1 tpl e b2 :
  save_flag b = true →
  prepare ar setup gate_name qubit_list return_flag kw b = Ok p b1 →
  gate_dic setup !! gate_name = Some tpl →
  dispatch eng (builder ar eng setup fuel) (function tpl) p.1.1
    (set_save_flag false b1) = Raise e b2 →
  ∃ b3 user_data,
    add_gate ar eng setup (S fuel) gate_name qubit_list return_flag kw b = Raise e b3 ∧
    circuit_list b3 =
      circuit_list b ++ [log_entry gate_name qubit_list user_data return_flag] ∧
    length (circuit_list b3) = S (length (circuit_list b)).
Proof.
  intros Hflag Hprep Htpl Hdisp.
  destruct (failed_dispatch ar eng setup _ _ _ _ _ _ _ _ _ _ _ Hprep Htpl Hdisp)
    as (Hadd & Hlog & _).
  destruct (prepare_logged ar setup _ _ _ _ _ _ _ Hflag Hprep)
    as (tpl' & user_data & _ & _ & ->).
  eexists _, user_data. split; [exact Hadd|]. simpl. rewrite Hlog. simpl.
  split; [done|]. rewrite length_app. simpl. lia.
Qed.

Lemma failed_call_stays_logged_witness :
  ∃ b3 user_data,
    add_gate exact device.eng device.setup 1 "Fail" [VStr "a"] device.no_flag ∅
      (init device.setup) = Raise (GateError "failed") b3 ∧
    circuit_list b3 = circuit_list (init device.setup) ++
       [log_entry "Fail" [VStr "a"] user_data device.no_flag] ∧
    length (circuit_list b3) = 1%nat.
Proof.
  eapply (failed_call_stays_logged exact device.eng device.setup 0 "Fail" [VStr "a"]
            device.no_flag ∅ (init device.setup));
    [reflexivity | vm_compute; reflexivity | reflexivity | vm_compute; reflexivity].
Defined.
